(** * WSN-Simulation: the shared medium, the node radio and the run set-up

    A shallow embedding of the simulation kernel of [wsn_simulation]
    ([media.py], [node/core.py], [node/sink.py], [core.py]) and the
    properties of it that the specification states.

    Conventions.
    - Python objects are records; a method takes the states of the objects
      it touches and returns their new states together with a [Result]
      ([Ok] for a normal return, [Raise] for an exception).  What was
      mutated before an exception stays mutated.
    - Simulated time ([simpy.core.SimTime]) is an integer: every delay in
      the sources ([sleep(100)], the integer [guard_time] of [main]) is one.
    - Python floats are kept abstract ([PyFloat]): the medium only compares
      them, raises one to a power and takes a base-2 logarithm, and the
      statements below hold for every interpretation of those operations,
      the IEEE one included.
    - Debug printing ([log], the [DEBUG_*] branches) has no effect on any
      state and is left out. *)

From Stdlib Require Import ZArith Reals Lra Lia.
From stdpp Require Import base gmap sets list strings.
From stdpp Require Import sorting.

Local Open Scope Z_scope.

(** ** Floats and the process-wide random stream *)

Class PyFloat := {
  float : Type;
  (** [a < b] on floats *)
  float_lt : float → float → bool;
  (** [a ** b], for a base [a >= 0] and an exponent [b > 0], where Python
      returns a float: the medium raises the loss rate, which [main] has
      validated, to a logarithm that is positive *)
  float_pow : float → float → float;
  (** [math.log2] of a positive [int] *)
  math_log2 : Z → float;
  (** [math.dist] of two integer grid positions *)
  math_dist : Z * Z → Z * Z → float;
  (** the literals [0.0] and [1.0] *)
  float_zero : float;
  float_one : float;
}.

Class PyRandom `{PyFloat} := {
  (** state of the generator behind [random.random] *)
  rng : Type;
  (** [random()] : the next draw and the advanced state *)
  random : rng → float * rng;
  (** [random.seed(n)] *)
  random_seed : Z → rng;
}.

(** ** Exceptions *)

Inductive Exn :=
  | RuntimeError (msg : string)
  | ValueError (msg : string).

Inductive Result (A : Type) :=
  | Ok (a : A)
  | Raise (e : Exn).
Arguments Ok {A} a.
Arguments Raise {A} e.

Definition is_raise {A} (r : Result A) : bool :=
  match r with Ok _ => false | Raise _ => true end.

(** ** Frames and transmissions *)

Abbreviation SimTime := Z (only parsing).

(** Modelled from the spec: the module [wsn_simulation.message] is not among
    the sources.  Its payload class is used in [sink.py] as
    [FloodBeaconMessage(FLOOD_ID=flood_id)]. *)
Inductive Message :=
  | FloodBeaconMessage (FLOOD_ID : string).

(** Modelled from the spec: [Frame] lives in [wsn_simulation.message]; its
    fields are those [Node.generate_frame] fills in. *)
Record Frame := {
  TYPE : string;
  SRC : Z;
  DST : Z;
  SEQ : Z;
  PAYLOAD : Message;
}.

Abbreviation Identity := (string * Z * Z * Z * Message)%type (only parsing).

(** Modelled from the spec: [Frame.identity] is the value of the frame, the
    tuple of its five fields ("a canonical equality over type, src, dst, seq,
    payload"; [media.py] calls it the astuple of the dataclass). *)
Definition identity (f : Frame) : Identity :=
  (TYPE f, SRC f, DST f, SEQ f, PAYLOAD f).

#[global] Instance Message_eq_dec : EqDecision Message.
Proof. solve_decision. Defined.

#[global] Instance Message_countable : Countable Message :=
  inj_countable' (λ m, match m with FloodBeaconMessage s => s end)
                 FloodBeaconMessage
                 (λ m, match m with FloodBeaconMessage _ => eq_refl end).

#[global] Instance Frame_eq_dec : EqDecision Frame.
Proof. solve_decision. Defined.

Record Transmission := {
  frame : Frame;
  sender_id : Z;
}.

(** ** The scheduler *)

Inductive Process :=
  | ReenableRx (node : Z)
  | FloodProcess (node : Z) (f : Frame).

Inductive Event :=
  | Propagation
  | Initialize (p : Process)
  | OtherEvent.

Record Scheduled := {
  sch_time : SimTime;
  sch_seq : nat;
  sch_event : Event;
}.

(** Modelled from the spec: the event scheduler ([simpy.Environment]) is a
    library, not part of the sources.  It keeps the simulated time and the
    events not yet fired, each with its time and a strictly increasing
    sequence number assigned when it is scheduled. *)
Record Environment := {
  now : SimTime;
  queue : list Scheduled;
  eid : nat;
}.

Definition Environment_init : Environment :=
  {| now := 0; queue := []; eid := 0%nat |}.

(** [env.schedule(event, delay=delay)] *)
Definition schedule (env : Environment) (ev : Event) (delay : Z) : Environment :=
  {| now := now env;
     queue := queue env ++ [ {| sch_time := now env + delay;
                                sch_seq := eid env;
                                sch_event := ev |} ];
     eid := S (eid env) |}.

(** [env.process(generator)] : the new process starts at the current time *)
Definition process (env : Environment) (p : Process) : Environment :=
  schedule env (Initialize p) 0.

#[global] Instance Process_eq_dec : EqDecision Process.
Proof. solve_decision. Defined.
#[global] Instance Event_eq_dec : EqDecision Event.
Proof. solve_decision. Defined.
#[global] Instance Scheduled_eq_dec : EqDecision Scheduled.
Proof. solve_decision. Defined.

(** ** Nodes ([node/core.py]) *)

Section Model.
Context `{PyRandom}.

Record NodeConfig := {
  node_id : Z;
  node_posx : Z;
  node_posy : Z;
  node_hop : Z;
  max_transmissions : Z;
  guard_time : SimTime;
  radio_txdistance : float;
  radio_channel : Z;
  DEBUG_POSITION : bool;
  DEBUG_RADIO : bool;
  DEBUG_SENSOR : bool;
}.

Definition node_pos (c : NodeConfig) : Z * Z := (node_posx c, node_posy c).

Record Node := {
  n_config : NodeConfig;
  flood_beacon_ids : gset string;
  flood_beacon_times : gmap string (gset Z);
  local_tx_count : Z;
  radio_rx_enable : bool;
}.

(** [Sink] adds the flood sequence number to [Node]. *)
Record Sink := {
  sink_node : Node;
  msg_seq : Z;
}.

(** ** The registry ([manager.py]) *)

(** [NetworkManager._node_by_id] *)
Abbreviation NetworkManager := (gmap Z Node) (only parsing).

Definition get_node (network : NetworkManager) (id : Z) : Result Node :=
  match network !! id with
  | Some n => Ok n
  | None => Raise (ValueError "node_id not found in the network")
  end.

(** ** The medium ([media.py]) *)

Record MediaConfig := {
  base_loss_rate : float;
  DEBUG_MEDIA : bool;
  ENABLE_CI : bool;
}.

(** A [simpy.Store] of the default, unbounded capacity: the frames put into
    it, oldest first. *)
Abbreviation Store := (list Frame) (only parsing).

Definition store_put (store : Store) (f : Frame) : Store := store ++ [f].

Record Media := {
  m_config : MediaConfig;
  node_pipes : list (Z * Store);
  _pending : list Transmission;
  _propagating : bool;
  _last_tx_time : gmap Z Z;
}.

(** [Media.__init__] *)
Definition Media_init (cfg : MediaConfig) : Media :=
  {| m_config := cfg; node_pipes := []; _pending := [];
     _propagating := false; _last_tx_time := ∅ |}.

(** [Media.get_output_conn] : a fresh store, registered under [node_id] *)
Definition get_output_conn (m : Media) (node : Z) : Media :=
  {| m_config := m_config m;
     node_pipes := node_pipes m ++ [(node, [])];
     _pending := _pending m;
     _propagating := _propagating m;
     _last_tx_time := _last_tx_time m |}.

(** [Media.put] *)
Definition put (f : Frame) (transmitter_id : Z)
    (env : Environment) (m : Media) : Media * Environment * Result unit :=
  match node_pipes m with
  | [] => (m, env, Raise (RuntimeError "There are no output pipes."))
  | _ :: _ =>
    if decide (_last_tx_time m !! transmitter_id = Some (now env)) then
      (m, env, Ok tt)
    else
      let last := <[transmitter_id := now env]> (_last_tx_time m) in
      let pending := _pending m ++ [ {| frame := f; sender_id := transmitter_id |} ] in
      if _propagating m then
        ({| m_config := m_config m; node_pipes := node_pipes m;
            _pending := pending; _propagating := true;
            _last_tx_time := last |}, env, Ok tt)
      else
        ({| m_config := m_config m; node_pipes := node_pipes m;
            _pending := pending; _propagating := true;
            _last_tx_time := last |},
         schedule env Propagation 0, Ok tt)
  end.

(** [Media._in_range] *)
Definition _in_range (sender receiver : Node) : bool :=
  let max_distance := radio_txdistance (n_config sender) in
  let distance := math_dist (node_pos (n_config sender)) (node_pos (n_config receiver)) in
  if float_lt max_distance distance then false else true.

(** [Media._on_channel] *)
Definition _on_channel (sender receiver : Node) : bool :=
  if decide (radio_channel (n_config receiver) ≠ radio_channel (n_config sender))
  then false else true.

(** [{tx.frame.identity for tx in transmissions}] *)
Definition identities_of (transmissions : list Transmission) : gset Identity :=
  list_to_set ((λ tx, identity (frame tx)) <$> transmissions).

(** [Media._loss_handler] *)
Definition _loss_handler (cfg : MediaConfig) (transmissions : list Transmission)
    (receiver_id : Z) (g : rng) : list Transmission * rng :=
  match transmissions with
  | [] => ([], g)
  | [tx] =>
    let '(r, g') := random g in
    if float_lt r (base_loss_rate cfg) then ([], g') else ([tx], g')
  | tx0 :: _ =>
    if ENABLE_CI cfg then
      let identities := identities_of transmissions in
      if decide (1 < size identities)%nat then ([], g)
      else
        let k := Z.of_nat (length transmissions) in
        let effective_loss := float_pow (base_loss_rate cfg) (math_log2 (k + 1)) in
        let '(r, g') := random g in
        if float_lt r effective_loss then ([], g') else ([tx0], g')
    else ([], g)
  end.

(** The inner loop of [_propagate]: the pending transmissions that pass the
    range and channel filters for [receiver], in order.  [get_node] of a
    sender raises when the sender is not registered. *)
Fixpoint rx_candidates (network : NetworkManager) (receiver : Node)
    (pending : list Transmission) : Result (list Transmission) :=
  match pending with
  | [] => Ok []
  | tx :: rest =>
    match get_node network (sender_id tx) with
    | Raise e => Raise e
    | Ok sender =>
      match rx_candidates network receiver rest with
      | Raise e => Raise e
      | Ok rx =>
        if _in_range sender receiver && _on_channel sender receiver
        then Ok (tx :: rx) else Ok rx
      end
    end
  end.

(** [for tx in rx: store.put(tx.frame)] *)
Definition deliver (store : Store) (rx : list Transmission) : Store :=
  foldl (λ s tx, store_put s (frame tx)) store rx.

(** The body of the sweep over [node_pipes] for one receiver. *)
Definition propagate_receiver (cfg : MediaConfig) (network : NetworkManager)
    (pending : list Transmission) (sender_ids : gset Z)
    (pipe : Z * Store) (g : rng) : (Z * Store) * rng * Result unit :=
  let '(receiver_id, store) := pipe in
  if decide (receiver_id ∈ sender_ids) then (pipe, g, Ok tt)
  else
    match get_node network receiver_id with
    | Raise e => (pipe, g, Raise e)
    | Ok receiver =>
      match rx_candidates network receiver pending with
      | Raise e => (pipe, g, Raise e)
      | Ok rx =>
        let '(rx', g') := _loss_handler cfg rx receiver_id g in
        ((receiver_id, deliver store rx'), g', Ok tt)
      end
    end.

(** The sweep over [node_pipes]; an exception leaves the remaining stores
    untouched. *)
Fixpoint propagate_sweep (cfg : MediaConfig) (network : NetworkManager)
    (pending : list Transmission) (sender_ids : gset Z)
    (pipes : list (Z * Store)) (g : rng)
    : list (Z * Store) * rng * Result unit :=
  match pipes with
  | [] => ([], g, Ok tt)
  | pipe :: rest =>
    match propagate_receiver cfg network pending sender_ids pipe g with
    | (pipe', g', Raise e) => (pipe' :: rest, g', Raise e)
    | (pipe', g', Ok _) =>
      let '(rest', g'', r) :=
        propagate_sweep cfg network pending sender_ids rest g' in
      (pipe' :: rest', g'', r)
    end
  end.

(** [{tx.sender_id for tx in self._pending}] *)
Definition sender_ids_of (pending : list Transmission) : gset Z :=
  list_to_set (sender_id <$> pending).

(** [Media._propagate]; the reset of [_pending] and [_propagating] is only
    reached when the sweep does not raise. *)
Definition _propagate (network : NetworkManager) (m : Media) (g : rng)
    : Media * rng * Result unit :=
  let sender_ids := sender_ids_of (_pending m) in
  match propagate_sweep (m_config m) network (_pending m) sender_ids (node_pipes m) g with
  | (pipes', g', Raise e) =>
    ({| m_config := m_config m; node_pipes := pipes';
        _pending := _pending m; _propagating := _propagating m;
        _last_tx_time := _last_tx_time m |}, g', Raise e)
  | (pipes', g', Ok _) =>
    ({| m_config := m_config m; node_pipes := pipes';
        _pending := []; _propagating := false;
        _last_tx_time := _last_tx_time m |}, g', Ok tt)
  end.

(** ** The node radio ([node/core.py]) *)

(** [Node.generate_frame] *)
Definition generate_frame (msg_type : string) (src_id dst_id msg_seq : Z)
    (payload : Message) : Frame :=
  {| TYPE := msg_type; SRC := src_id; DST := dst_id; SEQ := msg_seq;
     PAYLOAD := payload |}.

(** [Node.send].  The flag and the counter are updated before the frame is
    handed to the medium, so they stay updated when [put] raises. *)
Definition send (self : Node) (f : Frame) (env : Environment) (m : Media)
    : Node * Media * Environment * Result unit :=
  if negb (radio_rx_enable self) then (self, m, env, Ok tt)
  else
    let self' :=
      {| n_config := n_config self;
         flood_beacon_ids := flood_beacon_ids self;
         flood_beacon_times := flood_beacon_times self;
         local_tx_count := local_tx_count self + 1;
         radio_rx_enable := false |} in
    match put f (node_id (n_config self)) env m with
    | (m', env', Raise e) => (self', m', env', Raise e)
    | (m', env', Ok _) =>
      (self', m', process env' (ReenableRx (node_id (n_config self))), Ok tt)
    end.

(** What the [reenable_rx] process of [send] does when its guard-time
    timeout fires. *)
Definition reenable_rx (self : Node) : Node :=
  {| n_config := n_config self;
     flood_beacon_ids := flood_beacon_ids self;
     flood_beacon_times := flood_beacon_times self;
     local_tx_count := local_tx_count self;
     radio_rx_enable := true |}.

(** ** The sink ([node/sink.py]) *)

(** [Sink.trigger_flood].  [uuid4_hex] is the value of [uuid.uuid4().hex]:
    it comes from the operating system, not from the [random] module. *)
Definition trigger_flood (self : Sink) (uuid4_hex : string)
    (env : Environment) (m : Media)
    : Sink * Media * Environment * Result unit :=
  let seq := msg_seq self + 1 in
  let flood_id := uuid4_hex in
  let node := sink_node self in
  let time := now env in
  let node1 :=
    {| n_config := n_config node;
       flood_beacon_ids := {[flood_id]} ∪ flood_beacon_ids node;
       flood_beacon_times :=
         <[flood_id := {[time]} ∪ default ∅ (flood_beacon_times node !! flood_id)]>
           (flood_beacon_times node);
       local_tx_count := local_tx_count node;
       radio_rx_enable := radio_rx_enable node |} in
  let f := generate_frame "FLOOD_BEACON" (node_id (n_config node)) 0 seq
             (FloodBeaconMessage flood_id) in
  match send node1 f env m with
  | (node2, m', env', Raise e) =>
    ({| sink_node := node2; msg_seq := seq |}, m', env', Raise e)
  | (node2, m', env', Ok _) =>
    ({| sink_node := node2; msg_seq := seq |}, m',
     process env' (FloodProcess (node_id (n_config node)) f), Ok tt)
  end.

(** ** Run set-up ([core.py]) *)

(** [validate_simulation_parameters] *)
Definition validate_simulation_parameters
    (max_transmissions : Z) (loss_rate : float) (max_hops guard_time : Z)
    : Result unit :=
  if decide (max_transmissions < 0) then
    Raise (ValueError "transmission count must be positive integer greater or equal to 0")
  else if float_lt loss_rate float_zero || float_lt float_one loss_rate then
    Raise (ValueError "loss rate must be positive float smaller or equal to 1.0")
  else if decide (max_hops < 1) then
    Raise (ValueError "hop count must be a positive integer greater or equal to 1")
  else if decide (guard_time < 1) then
    Raise (ValueError "guard time must be positive integer greater or equal to 1")
  else Ok tt.

(** The beginning of [main], up to the creation of the medium: validation,
    seeding of the generator, a new environment and a new medium.
    [os_seeded] is the generator state [random.seed()] yields when no seed
    is given. *)
Definition main_setup (debug_mode : bool)
    (max_transmissions : Z) (loss_rate : float) (max_hops guard_time : Z)
    (rng_seed : option Z) (os_seeded : rng)
    : Result (rng * Environment * Media) :=
  match validate_simulation_parameters max_transmissions loss_rate max_hops guard_time with
  | Raise e => Raise e
  | Ok _ =>
    let g :=
      if debug_mode then random_seed 0
      else match rng_seed with
           | Some s => random_seed s
           | None => os_seeded
           end in
    Ok (g, Environment_init,
        Media_init {| base_loss_rate := loss_rate;
                      DEBUG_MEDIA := debug_mode;
                      ENABLE_CI := true |})
  end.

(** ** The run as a transition system *)

(** The order of the event queue: time first, then sequence number. *)
Definition sch_le (a b : Scheduled) : bool :=
  (sch_time a <? sch_time b)
  || ((sch_time a =? sch_time b) && (sch_seq a <=? sch_seq b)%nat).

Fixpoint next_event (q : list Scheduled) : option Scheduled :=
  match q with
  | [] => None
  | e :: q' =>
    match next_event q' with
    | None => Some e
    | Some e' => if sch_le e e' then Some e else Some e'
    end
  end.

Fixpoint remove_event (e : Scheduled) (q : list Scheduled) : list Scheduled :=
  match q with
  | [] => []
  | e' :: q' => if decide (e' = e) then q' else e' :: remove_event e q'
  end.

(** Modelled from the spec: one turn of the scheduler's loop removes the
    earliest event and advances the clock to its time. *)
Definition env_step (env : Environment) : option (Scheduled * Environment) :=
  match next_event (queue env) with
  | None => None
  | Some e =>
    Some (e, {| now := sch_time e;
                queue := remove_event e (queue env);
                eid := eid env |})
  end.

(** What can happen to the environment and the medium during a run: a node
    is created and connects to the medium, the running process sends,
    the running process schedules some event with a non-negative delay, or
    the scheduler fires the next event.  A [_propagate] that raises ends
    the run. *)
Inductive step : Environment * Media → Environment * Media → Prop :=
  | step_connect env m node :
      step (env, m) (env, get_output_conn m node)
  | step_put env m f id m' env' r :
      put f id env m = (m', env', r) →
      step (env, m) (env', m')
  | step_schedule env m ev delay :
      0 ≤ delay →
      step (env, m) (schedule env ev delay, m)
  | step_fire_propagation env m e env' network g m' g' :
      env_step env = Some (e, env') →
      sch_event e = Propagation →
      _propagate network m g = (m', g', Ok tt) →
      step (env, m) (env', m')
  | step_fire_other env m e env' :
      env_step env = Some (e, env') →
      sch_event e ≠ Propagation →
      step (env, m) (env', m).

(** The states a run started by [main] can be in. *)
Definition reachable (cfg : MediaConfig) (s : Environment * Media) : Prop :=
  rtc step (Environment_init, Media_init cfg) s.

(** A step during which the clock does not move. *)
Definition tick_step (s s' : Environment * Media) : Prop :=
  step s s' ∧ now s'.1 = now s.1.

(** What holds of the environment and the medium throughout a run: no
    event lies in the past; while the medium is propagating, its propagation
    event is due at the current time; an idle medium has an empty batch;
    everything in the batch was sent at the current time; and no sender is
    in the batch twice. *)
Definition medium_inv (s : Environment * Media) : Prop :=
  (∀ e, e ∈ queue s.1 → now s.1 ≤ sch_time e)
  ∧ (_propagating s.2 = true →
     ∃ e, e ∈ queue s.1 ∧ sch_time e = now s.1 ∧ sch_event e = Propagation)
  ∧ (_propagating s.2 = false → _pending s.2 = [])
  ∧ (∀ tx, tx ∈ _pending s.2 →
           _last_tx_time s.2 !! sender_id tx = Some (now s.1))
  ∧ NoDup (sender_id <$> _pending s.2).

(** The number of pending transmissions of one sender. *)
Definition pending_of (id : Z) (m : Media) : nat :=
  length (filter (λ tx, sender_id tx = id) (_pending m)).

End Model.

(** ** The receiving side of the node ([node/core.py], [node/sensor.py],
    [node/sink.py]) *)

Section Radio.
Context `{PyRandom}.

(** [Node.__init__] : the node registers a pipe with the medium and starts
    listening, with empty bookkeeping. *)
Definition Node_init (config : NodeConfig) (m : Media) : Node * Media :=
  ({| n_config := config;
      flood_beacon_ids := ∅;
      flood_beacon_times := ∅;
      local_tx_count := 0;
      radio_rx_enable := true |},
   get_output_conn m (node_id config)).

(** [Node.set_channel] *)
Definition set_channel (self : Node) (new_channel : Z) : Node :=
  {| n_config :=
       {| node_id := node_id (n_config self);
          node_posx := node_posx (n_config self);
          node_posy := node_posy (n_config self);
          node_hop := node_hop (n_config self);
          max_transmissions := max_transmissions (n_config self);
          guard_time := guard_time (n_config self);
          radio_txdistance := radio_txdistance (n_config self);
          radio_channel := new_channel;
          DEBUG_POSITION := DEBUG_POSITION (n_config self);
          DEBUG_RADIO := DEBUG_RADIO (n_config self);
          DEBUG_SENSOR := DEBUG_SENSOR (n_config self) |};
     flood_beacon_ids := flood_beacon_ids self;
     flood_beacon_times := flood_beacon_times self;
     local_tx_count := local_tx_count self;
     radio_rx_enable := radio_rx_enable self |}.

(** [payload.FLOOD_ID] *)
Definition FLOOD_ID_of (payload : Message) : string :=
  match payload with FloodBeaconMessage flood_id => flood_id end.

(** [Node._record_flood_beacons] *)
Definition _record_flood_beacons (self : Node) (payload : Message)
    (env : Environment) : Node :=
  let flood_id := FLOOD_ID_of payload in
  let flood_time := now env in
  {| n_config := n_config self;
     flood_beacon_ids := {[flood_id]} ∪ flood_beacon_ids self;
     flood_beacon_times :=
       <[flood_id := {[flood_time]} ∪ default ∅ (flood_beacon_times self !! flood_id)]>
         (flood_beacon_times self);
     local_tx_count := local_tx_count self;
     radio_rx_enable := radio_rx_enable self |}.

(** [Node.receive] : [None] for a frame that is dropped.  The payload class
    of the model has the flood beacon alone, so the [isinstance] test of the
    source always succeeds. *)
Definition receive (self : Node) (f : Frame) (env : Environment)
    : Node * option Frame :=
  if negb (radio_rx_enable self) then (self, None)
  else if bool_decide (DST f ≠ 0) && bool_decide (DST f ≠ node_id (n_config self))
  then (self, None)
  else if bool_decide (TYPE f = "FLOOD_BEACON") then
    match PAYLOAD f with
    | FloodBeaconMessage _ =>
      (_record_flood_beacons self (PAYLOAD f) env, Some f)
    end
  else (self, Some f).

(** One turn of the loop of [_receive_process], the same in [Sensor] and
    [Sink], for a frame [f] taken from the node's store: a new flood beacon
    that passes [receive] starts a [_flood_process]. *)
Definition receive_turn (self : Node) (f : Frame) (env : Environment)
    : Node * Environment :=
  let flood_id := FLOOD_ID_of (PAYLOAD f) in
  let is_new := bool_decide (flood_id ∉ flood_beacon_ids self) in
  match receive self f env with
  | (self', Some _) =>
    if bool_decide (TYPE f = "FLOOD_BEACON") && is_new then
      (self', process env (FloodProcess (node_id (n_config self)) f))
    else (self', env)
  | (self', None) => (self', env)
  end.

(** What the processes of a node do to the node object: a turn of the
    receive loop, a send, the re-enabling of the radio after the guard time,
    a change of channel and, for the sink, the trigger of a flood. *)
Inductive node_op : Node → Node → Prop :=
  | op_receive_turn self f env :
      node_op self (receive_turn self f env).1
  | op_send self f env m :
      node_op self (send self f env m).1.1.1
  | op_reenable_rx self :
      node_op self (reenable_rx self)
  | op_set_channel self new_channel :
      node_op self (set_channel self new_channel)
  | op_trigger_flood (sink : Sink) uuid4_hex env m :
      node_op (sink_node sink) (sink_node (trigger_flood sink uuid4_hex env m).1.1.1).

(** Several calls of [Media.put] one after the other, as the processes
    that run within one tick make them; a call that raises is skipped. *)
Definition put_all (sends : list (Frame * Z)) (env : Environment) (m : Media)
    : Media * Environment :=
  foldl (λ s send, (put send.1 send.2 s.2 s.1).1) (m, env) sends.

(** The first send of every sender, in the order of the sends; [seen] are
    the senders met so far. *)
Fixpoint first_sends (seen : gset Z) (sends : list (Frame * Z))
    : list Transmission :=
  match sends with
  | [] => []
  | (f, id) :: rest =>
    if decide (id ∈ seen) then first_sends seen rest
    else {| frame := f; sender_id := id |} :: first_sends ({[id]} ∪ seen) rest
  end.

(** The generator after [n] draws. *)
Definition draws (n : nat) (g : rng) : rng :=
  Nat.iter n (λ g', (random g').2) g.

(** What the bookkeeping of a node satisfies: the flood ids seen are the
    keys of the reception times, and each has at least one time. *)
Definition bookkeeping_ok (self : Node) : Prop :=
  ∀ flood_id,
    flood_id ∈ flood_beacon_ids self
    ↔ ∃ times, flood_beacon_times self !! flood_id = Some times ∧ times ≠ ∅.

End Radio.

(** ** The registry ([manager.py])

    The registry holds node objects and compares them by identity
    ([list.remove] on objects without [__eq__]); [Obj] is the type of these
    objects and [obj_id] reads [node.config.node_id]. *)

Module manager.
Section Manager.
Context {Obj : Type} `{EqDecision Obj} (obj_id : Obj → Z).

Record NetworkManager := {
  nodes : list Obj;
  _node_by_id : gmap Z Obj;
  node_count : nat;
}.

(** [NetworkManager.__init__] *)
Definition init : NetworkManager :=
  {| nodes := []; _node_by_id := ∅; node_count := 0%nat |}.

(** [NetworkManager._update_node_count] *)
Definition _update_node_count (mgr : NetworkManager) : NetworkManager :=
  {| nodes := nodes mgr; _node_by_id := _node_by_id mgr;
     node_count := length (nodes mgr) |}.

(** [NetworkManager.add_node] *)
Definition add_node (mgr : NetworkManager) (node : Obj)
    : NetworkManager * Result unit :=
  let node_id := obj_id node in
  match _node_by_id mgr !! node_id with
  | Some _ => (mgr, Raise (ValueError "node_id already in use"))
  | None =>
    (_update_node_count
       {| nodes := nodes mgr ++ [node];
          _node_by_id := <[node_id := node]> (_node_by_id mgr);
          node_count := node_count mgr |}, Ok tt)
  end.

(** [list.remove] : without the first element equal to [x] *)
Fixpoint list_remove_first (x : Obj) (l : list Obj) : list Obj :=
  match l with
  | [] => []
  | y :: l' => if decide (y = x) then l' else y :: list_remove_first x l'
  end.

(** [NetworkManager.remove_node].  The list is changed before the
    dictionary, and the count is updated only on success. *)
Definition remove_node (mgr : NetworkManager) (node : Obj)
    : NetworkManager * Result unit :=
  let node_id := obj_id node in
  if decide (node ∈ nodes mgr) then
    match _node_by_id mgr !! node_id with
    | Some _ =>
      (_update_node_count
         {| nodes := list_remove_first node (nodes mgr);
            _node_by_id := delete node_id (_node_by_id mgr);
            node_count := node_count mgr |}, Ok tt)
    | None =>
      ({| nodes := list_remove_first node (nodes mgr);
          _node_by_id := _node_by_id mgr;
          node_count := node_count mgr |},
       Raise (ValueError "Node not found in network."))
    end
  else (mgr, Raise (ValueError "Node not found in network.")).

(** [NetworkManager.get_node] *)
Definition get_node (mgr : NetworkManager) (node_id : Z) : Result Obj :=
  match _node_by_id mgr !! node_id with
  | Some node => Ok node
  | None => Raise (ValueError "node_id not found in the network")
  end.

(** The registry is consistent: the count is the length of the list, no two
    listed nodes share an id, and the dictionary maps exactly the ids of the
    listed nodes, each to its node. *)
Definition consistent (mgr : NetworkManager) : Prop :=
  node_count mgr = length (nodes mgr)
  ∧ NoDup (obj_id <$> nodes mgr)
  ∧ ∀ id node, _node_by_id mgr !! id = Some node ↔ node ∈ nodes mgr ∧ obj_id node = id.

End Manager.
End manager.

(** ** The grid topology ([core.py], [node/sink.py], [node/sensor.py]) *)

Section Topology.
Context `{PyRandom}.

(** The literal [1.5], the default of [NodeConfig.radio_txdistance]. *)
Variable default_txdistance : float.

(** A node object handed to the registry: a [Sink] or a [Sensor]. *)
Inductive Device :=
  | SinkDevice (s : Sink)
  | SensorDevice (n : Node).

Definition device_node (d : Device) : Node :=
  match d with
  | SinkDevice s => sink_node s
  | SensorDevice n => n
  end.

(** [node.config.node_id] *)
Definition device_id (d : Device) : Z := node_id (n_config (device_node d)).

(** The processes the constructors hand to [env.process]. *)
Inductive Started :=
  | MainProcess (node : Z)
  | ReceiveProcess (node : Z).

(** [Sink.__init__] : the node of [Node.__init__], the main and the receive
    process, and the sequence number [-1]. *)
Definition Sink_init (config : NodeConfig) (m : Media)
    : Sink * Media * list Started :=
  ({| sink_node := (Node_init config m).1; msg_seq := -1 |},
   (Node_init config m).2,
   [MainProcess (node_id config); ReceiveProcess (node_id config)]).

(** [Sensor.__init__] : the node of [Node.__init__] and the receive
    process. *)
Definition Sensor_init (config : NodeConfig) (m : Media)
    : Node * Media * list Started :=
  ((Node_init config m).1, (Node_init config m).2,
   [ReceiveProcess (node_id config)]).

(** [range(start, stop)] *)
Definition py_range (start stop : Z) : list Z := seqZ start (stop - start).

(** [max(abs(x), abs(y))] *)
Definition cell_hop (c : Z * Z) : Z := Z.max (Z.abs c.1) (Z.abs c.2).

(** The cells [(x, y)] in the order of the two nested loops, [y] outside. *)
Definition grid_cells (max_hops : Z) : list (Z * Z) :=
  concat ((λ y, (λ x, (x, y)) <$> py_range (- max_hops) (max_hops + 1))
            <$> py_range (- max_hops) (max_hops + 1)).

(** The dictionary [hops] : [hops.setdefault(hop, []).append((x, y))] for
    every cell. *)
Definition hops_of (cells : list (Z * Z)) : gmap Z (list (Z * Z)) :=
  foldl (λ hops c, <[cell_hop c := default [] (hops !! cell_hop c) ++ [c]]> hops)
        ∅ cells.

(** The order of tuples: first component, then second. *)
Definition cell_le (a b : Z * Z) : Prop :=
  a.1 < b.1 ∨ (a.1 = b.1 ∧ a.2 ≤ b.2).

#[local] Instance cell_le_dec a b : Decision (cell_le a b).
Proof. unfold cell_le. apply _. Defined.

(** [sorted(cells)] *)
Definition sorted_cells (cells : list (Z * Z)) : list (Z * Z) :=
  merge_sort cell_le cells.

(** What [add_nodes] has built so far: the next node id, the medium, the
    registry and the processes started. *)
Record Build := {
  next_id : Z;
  b_media : Media;
  b_network : manager.NetworkManager (Obj := Device);
  b_started : list Started;
}.

(** The [NodeConfig] of [add_nodes]; range and channel are the defaults. *)
Definition grid_config (id : Z) (c : Z * Z) (hop max_tx guard : Z)
    (debug_mode : bool) : NodeConfig :=
  {| node_id := id; node_posx := c.1; node_posy := c.2; node_hop := hop;
     max_transmissions := max_tx; guard_time := guard;
     radio_txdistance := default_txdistance; radio_channel := 7;
     DEBUG_POSITION := debug_mode; DEBUG_RADIO := debug_mode;
     DEBUG_SENSOR := debug_mode |}.

(** The body of the inner loop of [add_nodes] for the cell [c] of layer
    [hop]: the node object is built first, then handed to the registry;
    the id moves on when the registry has taken it. *)
Definition add_cell (max_tx guard : Z) (debug_mode : bool) (hop : Z)
    (c : Z * Z) (b : Build) : Build * Result unit :=
  let config := grid_config (next_id b) c hop max_tx guard debug_mode in
  let built : Device * Media * list Started :=
    if bool_decide (c.1 = 0) && bool_decide (c.2 = 0) then
      (SinkDevice (Sink_init config (b_media b)).1.1,
       (Sink_init config (b_media b)).1.2, (Sink_init config (b_media b)).2)
    else
      (SensorDevice (Sensor_init config (b_media b)).1.1,
       (Sensor_init config (b_media b)).1.2, (Sensor_init config (b_media b)).2) in
  match manager.add_node device_id (b_network b) built.1.1 with
  | (network', Raise e) =>
    ({| next_id := next_id b; b_media := built.1.2; b_network := network';
        b_started := b_started b ++ built.2 |}, Raise e)
  | (network', Ok _) =>
    ({| next_id := next_id b + 1; b_media := built.1.2; b_network := network';
        b_started := b_started b ++ built.2 |}, Ok tt)
  end.

(** The inner loop, over the sorted cells of one layer. *)
Fixpoint add_layer (max_tx guard : Z) (debug_mode : bool) (hop : Z)
    (cells : list (Z * Z)) (b : Build) : Build * Result unit :=
  match cells with
  | [] => (b, Ok tt)
  | c :: rest =>
    match add_cell max_tx guard debug_mode hop c b with
    | (b', Raise e) => (b', Raise e)
    | (b', Ok _) => add_layer max_tx guard debug_mode hop rest b'
    end
  end.

(** How [add_nodes] ends: normally, with the [KeyError] of [hops[hop]], or
    with the exception of the registry. *)
Inductive AddOutcome :=
  | Added
  | KeyError (hop : Z)
  | Rejected (e : Exn).

(** The outer loop, over the layers. *)
Fixpoint add_layers (max_tx guard : Z) (debug_mode : bool)
    (hops : gmap Z (list (Z * Z))) (layers : list Z) (b : Build)
    : Build * AddOutcome :=
  match layers with
  | [] => (b, Added)
  | hop :: rest =>
    match hops !! hop with
    | None => (b, KeyError hop)
    | Some cells =>
      match add_layer max_tx guard debug_mode hop (sorted_cells cells) b with
      | (b', Raise e) => (b', Rejected e)
      | (b', Ok _) => add_layers max_tx guard debug_mode hops rest b'
      end
    end
  end.

(** [add_nodes] *)
Definition add_nodes (network : manager.NetworkManager (Obj := Device))
    (media : Media) (max_tx max_hops guard : Z) (debug_mode : bool)
    : Build * AddOutcome :=
  add_layers max_tx guard debug_mode (hops_of (grid_cells max_hops))
    (py_range 0 (max_hops + 1))
    {| next_id := 1; b_media := media; b_network := network; b_started := [] |}.

(** The processes a node object has started. *)
Definition started_by (d : Device) : list Started :=
  match d with
  | SinkDevice _ => [MainProcess (device_id d); ReceiveProcess (device_id d)]
  | SensorDevice _ => [ReceiveProcess (device_id d)]
  end.

(** The node object [add_nodes] builds for the cell [c] of layer [hop]
    under the id [id]. *)
Definition grid_device (max_tx guard : Z) (debug_mode : bool)
    (id hop : Z) (c : Z * Z) : Device :=
  let node := {| n_config := grid_config id c hop max_tx guard debug_mode;
                 flood_beacon_ids := ∅; flood_beacon_times := ∅;
                 local_tx_count := 0; radio_rx_enable := true |} in
  if bool_decide (c.1 = 0) && bool_decide (c.2 = 0)
  then SinkDevice {| sink_node := node; msg_seq := -1 |}
  else SensorDevice node.

(** The node objects for a list of layers and cells, with consecutive ids
    from [id] on. *)
Fixpoint grid_devices (max_tx guard : Z) (debug_mode : bool) (id : Z)
    (order : list (Z * (Z * Z))) : list Device :=
  match order with
  | [] => []
  | (hop, c) :: rest =>
    grid_device max_tx guard debug_mode id hop c
    :: grid_devices max_tx guard debug_mode (id + 1) rest
  end.

(** The cells in the order in which [add_nodes] visits them, each with its
    layer: layer after layer, every layer sorted. *)
Definition layered_cells (cells : list (Z * Z)) (layers : list Z)
    : list (Z * (Z * Z)) :=
  concat ((λ hop, (λ c, (hop, c)) <$> sorted_cells (filter (λ c, cell_hop c = hop) cells))
            <$> layers).

(** No id from the next one on is taken in the registry. *)
Definition ids_free (b : Build) : Prop :=
  ∀ id, next_id b ≤ id → manager._node_by_id (b_network b) !! id = None.

(** What the loops have done to [b0] when they have built the node objects
    of [order]. *)
Definition built_from (max_tx guard : Z) (debug_mode : bool)
    (b0 : Build) (order : list (Z * (Z * Z))) (b : Build) : Prop :=
  next_id b = next_id b0 + Z.of_nat (length order)
  ∧ manager.nodes (b_network b)
    = manager.nodes (b_network b0)
      ++ grid_devices max_tx guard debug_mode (next_id b0) order
  ∧ b_media b
    = foldl get_output_conn (b_media b0)
        (seqZ (next_id b0) (Z.of_nat (length order)))
  ∧ b_started b
    = b_started b0
      ++ concat (started_by <$> grid_devices max_tx guard debug_mode (next_id b0) order)
  ∧ ids_free b
  ∧ (manager.consistent device_id (b_network b0) →
     manager.consistent device_id (b_network b)).

End Topology.

(** ** An interpretation of the numeric interface

    Floats read as real numbers, and a generator state read as the stream of
    the draws still to come.  It serves to run the model on concrete
    inputs. *)

Definition real_lt (x y : R) : bool :=
  if Rlt_dec x y then true else false.

(** [x ** y] for a base [x >= 0] *)
Definition real_pow (x y : R) : R :=
  if Req_dec_T x 0%R then (if Req_dec_T y 0%R then 1%R else 0%R)
  else Rpower x y.

Definition real_log2 (n : Z) : R := (ln (IZR n) / ln 2)%R.

Definition real_dist (p q : Z * Z) : R :=
  sqrt (IZR ((p.1 - q.1) * (p.1 - q.1) + (p.2 - q.2) * (p.2 - q.2))).

Definition RealFloat : PyFloat :=
  {| float := R; float_lt := real_lt; float_pow := real_pow;
     math_log2 := real_log2; math_dist := real_dist;
     float_zero := 0%R; float_one := 1%R |}.

Definition stream_random (g : nat → R) : R * (nat → R) :=
  (g 0%nat, λ n, g (S n)).

Definition stream_seed (z : Z) : nat → R :=
  λ n, (/ (IZR (Z.abs z) + INR n + 2))%R.

Definition StreamRandom : @PyRandom RealFloat :=
  {| rng := nat → R;
     random := stream_random : (nat → R) → @float RealFloat * (nat → R);
     random_seed := stream_seed |}.

(** ** Sample data *)

Section Samples.
#[local] Existing Instance RealFloat.
#[local] Existing Instance StreamRandom.

Definition sample_cfg : MediaConfig :=
  {| base_loss_rate := (6 / 10)%R; DEBUG_MEDIA := false; ENABLE_CI := true |}.

Definition sample_node_config (id x y hop : Z) : NodeConfig :=
  {| node_id := id; node_posx := x; node_posy := y; node_hop := hop;
     max_transmissions := 1; guard_time := 100;
     radio_txdistance := (3 / 2)%R; radio_channel := 7;
     DEBUG_POSITION := false; DEBUG_RADIO := false; DEBUG_SENSOR := false |}.

(** [Node.__init__] leaves a node listening, with empty bookkeeping. *)
Definition sample_node (id x y hop : Z) : Node :=
  {| n_config := sample_node_config id x y hop;
     flood_beacon_ids := ∅; flood_beacon_times := ∅;
     local_tx_count := 0; radio_rx_enable := true |}.

Definition sample_beacon (flood_id : string) : Frame :=
  generate_frame "FLOOD_BEACON" 1 0 0 (FloodBeaconMessage flood_id).

Definition sample_tx (flood_id : string) (sender : Z) : Transmission :=
  {| frame := sample_beacon flood_id; sender_id := sender |}.

(** A sink at the origin, two neighbours at distance one and a node at
    distance three. *)
Definition sample_network : gmap Z Node :=
  {[ 1 := sample_node 1 0 0 0; 2 := sample_node 2 1 0 1;
     3 := sample_node 3 (-1) 0 1; 4 := sample_node 4 3 0 3 ]}.

(** An environment whose clock shows [t], with nothing scheduled. *)
Definition sample_env (t : Z) : Environment :=
  {| now := t; queue := []; eid := 0%nat |}.

(** The medium after the nodes [ids] have been created, in that order. *)
Definition sample_media (ids : list Z) : Media :=
  foldl get_output_conn (Media_init sample_cfg) ids.

(** The medium of nodes [ids] after node 1 has sent a beacon at time 100. *)
Definition sample_sent (ids : list Z) : Media :=
  (put (sample_beacon "f1") 1 (sample_env 100) (sample_media ids)).1.1.

(** The medium of nodes 1, 2 and 3 after nodes 2 and 3 have sent the same
    beacon at time 100. *)
Definition sample_relayed : Media :=
  (put_all [ (sample_beacon "f1", 2); (sample_beacon "f1", 3) ]
     (sample_env 100) (sample_media [1; 2; 3])).1.

(** The sink as [Sink.__init__] leaves it. *)
Definition sample_sink : Sink :=
  {| sink_node := sample_node 1 0 0 0; msg_seq := -1 |}.

(** The generator after [random.seed(0)]. *)
Definition sample_rng : @rng RealFloat StreamRandom := stream_seed 0.

(** The network with node 2 moved to channel 9. *)
Definition sample_network_split : gmap Z Node :=
  {[ 1 := sample_node 1 0 0 0; 2 := set_channel (sample_node 2 1 0 1) 9 ]}.

(** Three sends within one tick, two of them by node 1. *)
Definition sample_sends : list (Frame * Z) :=
  [ (sample_beacon "f1", 1); (sample_beacon "f2", 2); (sample_beacon "f3", 1) ].

(** Node objects of a registry: the node id and the address of the
    object. *)
Definition sample_obj_id (o : Z * nat) : Z := o.1.

(** The registry after two nodes have been added. *)
Definition sample_registry : manager.NetworkManager :=
  (manager.add_node sample_obj_id
     (manager.add_node sample_obj_id manager.init (1, 0%nat)).1 (2, 1%nat)).1.

(** The default range, 1.5. *)
Definition sample_txdistance : @float RealFloat := (3 / 2)%R.

(** The grid of [max_hops = 1] : nine nodes, built on a new registry and a
    new medium. *)
Definition sample_grid : Build * AddOutcome :=
  add_nodes sample_txdistance manager.init (Media_init sample_cfg) 1 1 100 false.

(** Two of its nodes: the sink and the sensor in the cell (1, 0). *)
Definition sample_grid_sink : Device :=
  grid_device sample_txdistance 1 100 false 1 0 (0, 0).

Definition sample_grid_sensor : Device :=
  grid_device sample_txdistance 1 100 false 8 1 (1, 0).

End Samples.

(** * Properties *)

Section Properties.
Context `{PyRandom}.

(** ** The loss and interference law *)

Lemma identities_of_elem (txs : list Transmission) (i : Identity) :
  i ∈ identities_of txs ↔ ∃ tx, tx ∈ txs ∧ identity (frame tx) = i.
Proof.
  unfold identities_of. rewrite elem_of_list_to_set, list_elem_of_fmap.
  split; intros (tx & ? & ?); exists tx; by split.
Qed.

(** Identical candidates give one identity. *)
Lemma identities_of_identical (tx0 : Transmission) (rest : list Transmission) :
  (∀ t1 t2, t1 ∈ tx0 :: rest → t2 ∈ tx0 :: rest →
            identity (frame t1) = identity (frame t2)) →
  identities_of (tx0 :: rest) = {[ identity (frame tx0) ]}.
Proof.
  intros Hsame. apply set_eq. intros i.
  rewrite identities_of_elem, elem_of_singleton. split.
  - intros (tx & Hin & <-). apply Hsame; [done | left].
  - intros ->. exists tx0. split; [left | done].
Qed.

(** Two candidates of different content give at least two identities. *)
Lemma identities_of_distinct (txs : list Transmission) (t1 t2 : Transmission) :
  t1 ∈ txs → t2 ∈ txs →
  identity (frame t1) ≠ identity (frame t2) →
  (1 < size (identities_of txs))%nat.
Proof.
  intros H1 H2 Hne.
  assert (Hsub : ({[ identity (frame t1) ]} ∪ {[ identity (frame t2) ]} : gset Identity)
                 ⊆ identities_of txs).
  { intros i. rewrite elem_of_union, !elem_of_singleton, identities_of_elem.
    intros [-> | ->]; eauto. }
  apply subseteq_size in Hsub.
  rewrite size_union, !size_singleton in Hsub; [lia | set_solver].
Qed.

Lemma deliver_nil (store : list Frame) : deliver store [] = store.
Proof. reflexivity. Qed.

Lemma deliver_one (store : list Frame) (tx : Transmission) :
  deliver store [tx] = store ++ [frame tx].
Proof. reflexivity. Qed.

(** The sweep body, once the receiver and its candidates are known. *)
Lemma propagate_receiver_candidates cfg network pending sender_ids
    rid store receiver rx g :
  rid ∉ sender_ids →
  get_node network rid = Ok receiver →
  rx_candidates network receiver pending = Ok rx →
  propagate_receiver cfg network pending sender_ids (rid, store) g =
    ((rid, deliver store (_loss_handler cfg rx rid g).1),
     (_loss_handler cfg rx rid g).2, Ok tt).
Proof.
  intros Hnot Hrecv Hrx. unfold propagate_receiver.
  rewrite decide_False by done. rewrite Hrecv, Hrx.
  by destruct (_loss_handler cfg rx rid g).
Qed.

Lemma draws_S n (g : rng) : draws n (random g).2 = draws (S n) g.
Proof. unfold draws. by rewrite Nat.iter_succ_r. Qed.

Lemma _loss_handler_draws cfg rx rid g :
  (_loss_handler cfg rx rid g).2 = g ∨ (_loss_handler cfg rx rid g).2 = (random g).2.
Proof.
  destruct rx as [|tx0 [|tx1 rest]]; [by left| |].
  - simpl. destruct (random g) as [r g']. right. by destruct (float_lt r _).
  - unfold _loss_handler. destruct (ENABLE_CI cfg); [|by left].
    destruct (decide _); [by left|].
    destruct (random g) as [r g']. right. by destruct (float_lt r _).
Qed.

Lemma propagate_receiver_draws cfg network pending sender_ids pipe g :
  (propagate_receiver cfg network pending sender_ids pipe g).1.2 = g
  ∨ (propagate_receiver cfg network pending sender_ids pipe g).1.2 = (random g).2.
Proof.
  destruct pipe as [rid store]. unfold propagate_receiver.
  destruct (decide _); [by left|].
  destruct (get_node network rid); [|by left].
  destruct (rx_candidates network a pending); [|by left].
  pose proof (_loss_handler_draws cfg a0 rid g) as Hd.
  by destruct (_loss_handler cfg a0 rid g).
Qed.

Lemma _propagate_node_pipes network m g :
  node_pipes (_propagate network m g).1.1 =
  (propagate_sweep (m_config m) network (_pending m)
     (sender_ids_of (_pending m)) (node_pipes m) g).1.1.
Proof.
  unfold _propagate.
  by destruct (propagate_sweep _ _ _ _ _ _) as [[pipes' g'] [[]|e]].
Qed.

Lemma _propagate_result network m g :
  (_propagate network m g).2 =
  (propagate_sweep (m_config m) network (_pending m)
     (sender_ids_of (_pending m)) (node_pipes m) g).2.
Proof.
  unfold _propagate.
  by destruct (propagate_sweep _ _ _ _ _ _) as [[pipes' g'] [[]|e]].
Qed.

(** A sweep that returns has run the sweep body on every pipe; the body of
    the pipe at index [i] got the generator after the draws of the pipes
    before it, which are at most [i]. *)
Lemma propagate_sweep_reached cfg network pending sender_ids pipes :
  ∀ g i pipe,
    pipes !! i = Some pipe →
    (propagate_sweep cfg network pending sender_ids pipes g).2 = Ok tt →
    ∃ n, (n ≤ i)%nat
         ∧ (propagate_sweep cfg network pending sender_ids pipes g).1.1 !! i =
           Some (propagate_receiver cfg network pending sender_ids pipe
                   (draws n g)).1.1.
Proof.
  induction pipes as [|pipe0 rest IH]; intros g i pipe Hi Hok; [done|].
  simpl in *.
  pose proof (propagate_receiver_draws cfg network pending sender_ids pipe0 g) as Hd.
  destruct (propagate_receiver cfg network pending sender_ids pipe0 g)
    as [[pipe0' g'] [[]|e]] eqn:Hbody; [|done].
  destruct (propagate_sweep cfg network pending sender_ids rest g')
    as [[rest' g''] r] eqn:Hrest.
  destruct i as [|j]; simpl in *.
  - exists 0%nat. split; [lia|]. simplify_eq.
    change (draws 0 g) with g. by rewrite Hbody.
  - destruct (IH g' j pipe Hi) as (n & Hn & Hlook); [by rewrite Hrest|].
    rewrite Hrest in Hlook. simpl in Hlook.
    destruct Hd as [-> | ->].
    + exists n. split; [lia | done].
    + exists (S n). split; [lia|]. by rewrite <- draws_S.
Qed.

(** C1.  When the candidates that reach a receiver are two or more and all
    carry the same frame content, and constructive interference is enabled,
    the loss handler takes exactly one draw [r] and compares it with
    [base_loss_rate ** log2(k + 1)], [k] the number of candidates: the frame
    is lost when [r] is below, and otherwise the first candidate alone
    survives.  A resolution that returns delivers accordingly: after
    [_propagate] the pipe of the receiver holds what it held and, unless the
    draw was below, one copy of the frame in addition; the draw is the one
    that follows the draws taken for the pipes before it, at most one
    each. *)
Theorem constructive_interference_law network m rid receiver tx0 rest :
  ENABLE_CI (m_config m) = true →
  (2 ≤ length (tx0 :: rest))%nat →
  (∀ t1 t2, t1 ∈ tx0 :: rest → t2 ∈ tx0 :: rest →
            identity (frame t1) = identity (frame t2)) →
  rid ∉ sender_ids_of (_pending m) →
  get_node network rid = Ok receiver →
  rx_candidates network receiver (_pending m) = Ok (tx0 :: rest) →
  let k := Z.of_nat (length (tx0 :: rest)) in
  let effective_loss := float_pow (base_loss_rate (m_config m)) (math_log2 (k + 1)) in
  (∀ g0,
     _loss_handler (m_config m) (tx0 :: rest) rid g0 =
       (if float_lt (random g0).1 effective_loss then [] else [tx0], (random g0).2))
  ∧ (∀ store g0,
       propagate_receiver (m_config m) network (_pending m)
         (sender_ids_of (_pending m)) (rid, store) g0 =
       ((rid, if float_lt (random g0).1 effective_loss then store
              else store ++ [frame tx0]),
        (random g0).2, Ok tt))
  ∧ (∀ g i store,
       node_pipes m !! i = Some (rid, store) →
       (_propagate network m g).2 = Ok tt →
       ∃ n, (n ≤ i)%nat
            ∧ node_pipes (_propagate network m g).1.1 !! i =
              Some (rid, if float_lt (random (draws n g)).1 effective_loss then store
                         else store ++ [frame tx0])).
Proof.
  intros Hci Hlen Hsame Hnot Hrecv Hrx k effective_loss.
  assert (Hloss : ∀ g0,
            _loss_handler (m_config m) (tx0 :: rest) rid g0 =
              (if float_lt (random g0).1 effective_loss then [] else [tx0],
               (random g0).2)).
  { intros g0. destruct rest as [|tx1 rest']; [simpl in Hlen; lia|].
    unfold _loss_handler. rewrite Hci.
    rewrite (identities_of_identical _ _ Hsame), size_singleton.
    rewrite decide_False by lia.
    subst effective_loss k. destruct (random g0) as [r0 g1]. simpl.
    by destruct (float_lt r0 _). }
  assert (Hbody : ∀ store g0,
            propagate_receiver (m_config m) network (_pending m)
              (sender_ids_of (_pending m)) (rid, store) g0 =
            ((rid, if float_lt (random g0).1 effective_loss then store
                   else store ++ [frame tx0]),
             (random g0).2, Ok tt)).
  { intros store g0.
    rewrite (propagate_receiver_candidates _ _ _ _ _ _ _ _ _ Hnot Hrecv Hrx), Hloss.
    simpl. by destruct (float_lt (random g0).1 effective_loss). }
  split_and!; [exact Hloss | exact Hbody |].
  intros g i store Hi Hok. rewrite _propagate_result in Hok.
  destruct (propagate_sweep_reached _ _ _ _ _ g i (rid, store) Hi Hok)
    as (n & Hn & Hlook).
  exists n. split; [done|].
  by rewrite _propagate_node_pipes, Hlook, Hbody.
Qed.

(** C2.  When two or more candidates reach a receiver and either two of them
    differ in frame content or constructive interference is disabled, the
    loss handler returns nothing and takes no draw, whatever the base loss
    rate: the receiver's store and the generator are left as they were. *)
Theorem destructive_collision cfg network pending sender_ids
    rid store receiver txs g :
  (2 ≤ length txs)%nat →
  (ENABLE_CI cfg = false ∨
   ∃ t1 t2, t1 ∈ txs ∧ t2 ∈ txs ∧ identity (frame t1) ≠ identity (frame t2)) →
  _loss_handler cfg txs rid g = ([], g)
  ∧ (rid ∉ sender_ids →
     get_node network rid = Ok receiver →
     rx_candidates network receiver pending = Ok txs →
     propagate_receiver cfg network pending sender_ids (rid, store) g =
       ((rid, store), g, Ok tt)).
Proof.
  intros Hlen Hcase.
  assert (Hloss : _loss_handler cfg txs rid g = ([], g)).
  { destruct txs as [|tx0 [|tx1 rest]]; [simpl in Hlen; lia ..|].
    unfold _loss_handler. destruct (ENABLE_CI cfg) eqn:Hci; [|done].
    destruct Hcase as [|(t1 & t2 & H1 & H2 & Hne)]; [done|].
    by rewrite decide_True by eauto using identities_of_distinct. }
  split; [exact Hloss|]. intros Hnot Hrecv Hrx.
  by rewrite (propagate_receiver_candidates _ _ _ _ _ _ _ _ _ Hnot Hrecv Hrx), Hloss.
Qed.

(** ** The sweep over the receivers *)

Lemma propagate_receiver_id cfg network pending sender_ids pipe g :
  (propagate_receiver cfg network pending sender_ids pipe g).1.1.1 = pipe.1.
Proof.
  destruct pipe as [rid store]. unfold propagate_receiver.
  destruct (decide (rid ∈ sender_ids)); [done|].
  destruct (get_node network rid); [|done].
  destruct (rx_candidates network a pending); [|done].
  by destruct (_loss_handler cfg a0 rid g).
Qed.

(** A sender of the batch is skipped. *)
Lemma propagate_receiver_sender cfg network pending sender_ids rid store g :
  rid ∈ sender_ids →
  propagate_receiver cfg network pending sender_ids (rid, store) g =
    ((rid, store), g, Ok tt).
Proof. intros Hin. unfold propagate_receiver. by rewrite decide_True. Qed.

(** After the sweep every pipe is either as it was or as the sweep body
    left it. *)
Lemma propagate_sweep_lookup cfg network pending sender_ids pipes :
  ∀ g i pipe,
    pipes !! i = Some pipe →
    (propagate_sweep cfg network pending sender_ids pipes g).1.1 !! i = Some pipe
    ∨ ∃ g0, (propagate_sweep cfg network pending sender_ids pipes g).1.1 !! i =
            Some (propagate_receiver cfg network pending sender_ids pipe g0).1.1.
Proof.
  induction pipes as [|pipe0 rest IH]; intros g i pipe Hi; [done|].
  simpl.
  destruct (propagate_receiver cfg network pending sender_ids pipe0 g)
    as [[pipe0' g'] [[]|e]] eqn:Hbody.
  - destruct (propagate_sweep cfg network pending sender_ids rest g')
      as [[rest' g''] r] eqn:Hrest.
    destruct i as [|j]; simpl in *.
    + right. exists g. simplify_eq. by rewrite Hbody.
    + specialize (IH g' j pipe Hi). by rewrite Hrest in IH.
  - destruct i as [|j]; simpl in *.
    + right. exists g. simplify_eq. by rewrite Hbody.
    + by left.
Qed.

(** A pipe the sweep body never changes is unchanged by [_propagate]. *)
Lemma _propagate_pipe_unchanged network m g i pipe :
  node_pipes m !! i = Some pipe →
  (∀ g0, (propagate_receiver (m_config m) network (_pending m)
            (sender_ids_of (_pending m)) pipe g0).1.1 = pipe) →
  node_pipes (_propagate network m g).1.1 !! i = Some pipe.
Proof.
  intros Hi Hbody. rewrite _propagate_node_pipes.
  destruct (propagate_sweep_lookup (m_config m) network (_pending m)
              (sender_ids_of (_pending m)) (node_pipes m) g i pipe Hi)
    as [Hsame | [g0 Hg0]]; [done|].
  by rewrite Hg0, Hbody.
Qed.

(** C3.  Half-duplex exclusion: a pipe whose node id is among the sender ids
    of the pending batch holds, after [_propagate], exactly the frames it
    held before, whatever the draws, positions, ranges and channels, and
    also when the sweep ends in an exception. *)
Theorem half_duplex_exclusion network m g i n store :
  node_pipes m !! i = Some (n, store) →
  n ∈ sender_id <$> _pending m →
  node_pipes (_propagate network m g).1.1 !! i = Some (n, store).
Proof.
  intros Hi Hsender. apply _propagate_pipe_unchanged; [done|].
  intros g0. rewrite propagate_receiver_sender; [done|].
  unfold sender_ids_of. by apply elem_of_list_to_set.
Qed.

(** ** Range *)

Lemma rx_candidates_out_of_range network receiver pending :
  (∀ tx sender, tx ∈ pending → network !! sender_id tx = Some sender →
                _in_range sender receiver = false) →
  rx_candidates network receiver pending = Ok []
  ∨ ∃ e, rx_candidates network receiver pending = Raise e.
Proof.
  induction pending as [|tx rest IH]; intros Hfar; [by left|].
  simpl. unfold get_node.
  destruct (network !! sender_id tx) as [sender|] eqn:Hsender; [|by eauto].
  destruct IH as [-> | [e ->]]; [| |by eauto].
  { intros tx' sender' Hin. apply Hfar. by right. }
  rewrite (Hfar tx sender); [by left | left | done].
Qed.

(** C6.  A receiver that is strictly farther from every sender of the
    pending batch than that sender's range gets nothing: its pipe is the
    same after [_propagate], and the sweep body decides this without taking
    a draw (it hands the generator back as it got it). *)
Theorem out_of_range_never_receives network m g i rid store :
  node_pipes m !! i = Some (rid, store) →
  (∀ tx sender receiver,
     tx ∈ _pending m →
     network !! sender_id tx = Some sender →
     network !! rid = Some receiver →
     float_lt (radio_txdistance (n_config sender))
              (math_dist (node_pos (n_config sender)) (node_pos (n_config receiver)))
     = true) →
  node_pipes (_propagate network m g).1.1 !! i = Some (rid, store)
  ∧ ∀ g0, (propagate_receiver (m_config m) network (_pending m)
             (sender_ids_of (_pending m)) (rid, store) g0).1 = ((rid, store), g0).
Proof.
  intros Hi Hfar.
  assert (Hbody : ∀ g0, (propagate_receiver (m_config m) network (_pending m)
             (sender_ids_of (_pending m)) (rid, store) g0).1 = ((rid, store), g0)).
  { intros g0. unfold propagate_receiver.
    destruct (decide (rid ∈ sender_ids_of (_pending m))); [done|].
    unfold get_node. destruct (network !! rid) as [receiver|] eqn:Hrecv; [|done].
    destruct (rx_candidates_out_of_range network receiver (_pending m))
      as [-> | [e ->]]; [|done..].
    intros tx sender Hin Hsender. unfold _in_range.
    by rewrite (Hfar tx sender receiver). }
  split; [|done].
  apply _propagate_pipe_unchanged; [done|]. intros g0. by rewrite Hbody.
Qed.

(** ** The end of a resolution *)

(** [_propagate] returns normally when every pipe and every sender of the
    batch belongs to a registered node. *)
Lemma rx_candidates_registered network receiver pending :
  (∀ tx, tx ∈ pending → is_Some (network !! sender_id tx)) →
  ∃ rx, rx_candidates network receiver pending = Ok rx.
Proof.
  induction pending as [|tx rest IH]; intros Hreg; [by eexists|].
  simpl. unfold get_node.
  destruct (Hreg tx) as [sender ->]; [left|].
  destruct IH as [rx ->]; [intros tx' Hin; apply Hreg; by right|].
  destruct (_ && _); by eexists.
Qed.

Lemma propagate_sweep_registered cfg network pending sender_ids pipes :
  (∀ tx, tx ∈ pending → is_Some (network !! sender_id tx)) →
  (∀ pipe, pipe ∈ pipes → is_Some (network !! pipe.1)) →
  ∀ g, (propagate_sweep cfg network pending sender_ids pipes g).2 = Ok tt.
Proof.
  intros Htx. induction pipes as [|[rid store] rest IH]; intros Hpipes g; [done|].
  simpl. unfold propagate_receiver.
  assert (Hrest : ∀ pipe, pipe ∈ rest → is_Some (network !! pipe.1)).
  { intros pipe Hin. apply Hpipes. by right. }
  destruct (decide (rid ∈ sender_ids)).
  - specialize (IH Hrest g).
    by destruct (propagate_sweep cfg network pending sender_ids rest g) as [[? ?] ?].
  - unfold get_node. destruct (Hpipes (rid, store)) as [receiver Hrecv]; [left|].
    simpl in Hrecv. rewrite Hrecv.
    destruct (rx_candidates_registered network receiver pending Htx) as [rx ->].
    destruct (_loss_handler cfg rx rid g) as [rx' g'].
    specialize (IH Hrest g').
    by destruct (propagate_sweep cfg network pending sender_ids rest g') as [[? ?] ?].
Qed.

Lemma _propagate_returns network m g :
  (∀ tx, tx ∈ _pending m → is_Some (network !! sender_id tx)) →
  (∀ pipe, pipe ∈ node_pipes m → is_Some (network !! pipe.1)) →
  (_propagate network m g).2 = Ok tt.
Proof.
  intros Htx Hpipes. unfold _propagate.
  pose proof (propagate_sweep_registered (m_config m) network (_pending m)
                (sender_ids_of (_pending m)) (node_pipes m) Htx Hpipes g) as Hok.
  destruct (propagate_sweep _ _ _ _ _ _) as [[pipes' g'] r].
  simpl in Hok. by subst r.
Qed.

(** What a returning [_propagate] leaves behind. *)
Lemma _propagate_ok_state network m g m' g' :
  _propagate network m g = (m', g', Ok tt) →
  _pending m' = [] ∧ _propagating m' = false
  ∧ _last_tx_time m' = _last_tx_time m.
Proof.
  unfold _propagate.
  destruct (propagate_sweep _ _ _ _ _ _) as [[pipes' g0] [[]|e]];
    intros Heq; by simplify_eq.
Qed.

Lemma _propagate_ok_eta network m g :
  (_propagate network m g).2 = Ok tt →
  _propagate network m g =
    ((_propagate network m g).1.1, (_propagate network m g).1.2, Ok tt).
Proof. destruct (_propagate network m g) as [[m' g'] r]. simpl. by intros ->. Qed.

(** C7, as the code has it.  When [_propagate] returns, the pending batch is
    empty and the medium is no longer propagating; the map of last
    transmission times is the one it was before the call, entries of the
    resolved tick included. *)
Theorem propagate_resets_batch network m g m' g' :
  _propagate network m g = (m', g', Ok tt) →
  _pending m' = [] ∧ _propagating m' = false
  ∧ _last_tx_time m' = _last_tx_time m.
Proof. apply _propagate_ok_state. Qed.

(** ** Sending without an endpoint *)

(** C8.  [put] raises exactly when no pipe is registered; the exception is
    the [RuntimeError], and the medium (pending batch and last transmission
    times included) and the environment are then what they were. *)
Theorem put_raises_iff_no_pipes f id env m :
  (is_raise (put f id env m).2 = true ↔ node_pipes m = [])
  ∧ (is_raise (put f id env m).2 = true →
     put f id env m = (m, env, Raise (RuntimeError "There are no output pipes."))).
Proof.
  unfold put. destruct (node_pipes m) as [|pipe pipes]; [done|].
  destruct (decide (_last_tx_time m !! id = Some (now env)));
    [|destruct (_propagating m)]; simpl; split; (split || idtac); done.
Qed.

(** ** Validation of the run parameters *)

(** A case in which the validation raises: the three parts of the statement
    follow from the shape of the result. *)
Ltac raising tac :=
  split_and!;
  [ split; [intros _; tac | intros _; by eexists]
  | intros e; split; intros [= <-]; reflexivity
  | split; [intros ?; discriminate | intros (? & ? & ?); discriminate] ].

(** C9.  [main] fails with a [ValueError] exactly when the loss rate is
    below [0.0] or above [1.0], or [max_hops < 1], or [guard_time < 1], or
    [max_transmissions < 0].  It fails in the validation, before the
    generator is seeded and before an environment exists; otherwise the
    set-up returns the initial environment, in which nothing is scheduled. *)
Theorem configuration_error_iff_out_of_range
    debug_mode max_tx loss_rate max_hops guard rng_seed os_seeded :
  ((∃ msg, main_setup debug_mode max_tx loss_rate max_hops guard rng_seed os_seeded
           = Raise (ValueError msg))
   ↔ (float_lt loss_rate float_zero = true ∨ float_lt float_one loss_rate = true
      ∨ max_hops < 1 ∨ guard < 1 ∨ max_tx < 0))
  ∧ (∀ e, main_setup debug_mode max_tx loss_rate max_hops guard rng_seed os_seeded
          = Raise e
          ↔ validate_simulation_parameters max_tx loss_rate max_hops guard = Raise e)
  ∧ (validate_simulation_parameters max_tx loss_rate max_hops guard = Ok tt ↔
     ∃ g m, main_setup debug_mode max_tx loss_rate max_hops guard rng_seed os_seeded
            = Ok (g, Environment_init, m)).
Proof.
  unfold main_setup, validate_simulation_parameters.
  destruct (decide (max_tx < 0)) as [Hmt|Hmt];
    [raising ltac:(by repeat right)|].
  destruct (float_lt loss_rate float_zero) eqn:Hlo; simpl;
    [raising ltac:(by left)|].
  destruct (float_lt float_one loss_rate) eqn:Hhi; simpl;
    [raising ltac:(by right; left)|].
  destruct (decide (max_hops < 1)) as [Hmh|Hmh];
    [raising ltac:(by right; right; left)|].
  destruct (decide (guard < 1)) as [Hgt|Hgt];
    [raising ltac:(by right; right; right; left)|].
  split_and!.
  - split; [by intros [? ?] | intros [|[|[|[|]]]]; done || lia].
  - intros e. split; intros [=].
  - split; [by eexists _, _ | done].
Qed.

(** ** The radio guard *)

(** C10.  While [radio_rx_enable] is false, [send] returns at once: the
    node (counter and flag included), the medium and the environment are
    returned as they were given, so no frame is buffered and no process is
    started. *)
Theorem send_while_guarded_is_noop self f env m :
  radio_rx_enable self = false →
  send self f env m = (self, m, env, Ok tt).
Proof. intros Hoff. unfold send. by rewrite Hoff. Qed.

(** ** The flood identifier *)

(** C5.  The flood identifier [trigger_flood] records is the value of
    [uuid4], which no seed governs: from one and the same sink, environment
    and medium, two different fresh identifiers leave two different sets of
    flood ids seen. *)
Theorem flood_ids_follow_uuid self env m u1 u2 :
  u1 ≠ u2 →
  u1 ∉ flood_beacon_ids (sink_node self) →
  flood_beacon_ids (sink_node (trigger_flood self u1 env m).1.1.1)
  ≠ flood_beacon_ids (sink_node (trigger_flood self u2 env m).1.1.1).
Proof.
  intros Hne Hfresh.
  assert (Hids : ∀ u, flood_beacon_ids (sink_node (trigger_flood self u env m).1.1.1)
                      = {[u]} ∪ flood_beacon_ids (sink_node self)).
  { intros u. unfold trigger_flood, send. simpl.
    destruct (radio_rx_enable (sink_node self)); simpl; [|done].
    by destruct (put _ _ env m) as [[m' env'] [[]|e]]. }
  rewrite !Hids. intros Heq.
  assert (Hin : u1 ∈ ({[u2]} ∪ flood_beacon_ids (sink_node self) : gset string)).
  { rewrite <- Heq. by apply elem_of_union_l, elem_of_singleton. }
  apply elem_of_union in Hin as [Hin%elem_of_singleton | Hin]; done.
Qed.

(** ** One transmission per sender and tick *)

Lemma next_event_elem q e : next_event q = Some e → e ∈ q.
Proof.
  revert e. induction q as [|e0 q IH]; intros e; simpl; [done|].
  destruct (next_event q) as [e'|].
  - destruct (sch_le e0 e'); intros [= <-]; [left | right; by apply IH].
  - intros [= <-]. left.
Qed.

Lemma sch_le_time a b : sch_le a b = true → sch_time a ≤ sch_time b.
Proof.
  unfold sch_le. intros [Hlt | [Heq _]%andb_true_iff]%orb_true_iff.
  - apply Z.ltb_lt in Hlt. lia.
  - apply Z.eqb_eq in Heq. lia.
Qed.

Lemma sch_le_time_false a b : sch_le a b = false → sch_time b ≤ sch_time a.
Proof.
  unfold sch_le. intros [Hlt _]%orb_false_iff. by apply Z.ltb_ge in Hlt.
Qed.

Lemma next_event_earliest q e :
  next_event q = Some e → ∀ e', e' ∈ q → sch_time e ≤ sch_time e'.
Proof.
  revert e. induction q as [|e0 q IH]; intros e; simpl; [done|].
  destruct (next_event q) as [e1|] eqn:Hnext.
  - specialize (IH e1 eq_refl).
    destruct (sch_le e0 e1) eqn:Hle; intros [= <-] e' Hin;
      apply elem_of_cons in Hin as [-> | Hin].
    + lia.
    + apply sch_le_time in Hle. specialize (IH e' Hin). lia.
    + by apply sch_le_time_false.
    + by apply IH.
  - destruct q as [|e1 q'].
    + intros [= <-] e' Hin. apply elem_of_cons in Hin as [-> | Hin]; [lia|].
      by apply elem_of_nil in Hin.
    + simpl in Hnext. destruct (next_event q') as [e2|]; [|done].
      by destruct (sch_le e1 e2).
Qed.

Lemma remove_event_elem e q x : x ∈ remove_event e q → x ∈ q.
Proof.
  induction q as [|e0 q IH]; simpl; [done|].
  destruct (decide (e0 = e)); [by right|].
  intros [-> | Hin]%elem_of_cons; [left | right; by apply IH].
Qed.

Lemma remove_event_other e q x : x ∈ q → x ≠ e → x ∈ remove_event e q.
Proof.
  intros Hin Hne. induction q as [|e0 q IH]; simpl; [done|].
  apply elem_of_cons in Hin as [-> | Hin].
  - rewrite decide_False by done. left.
  - destruct (decide (e0 = e)); [done|]. right. by apply IH.
Qed.

Lemma pending_of_absent id (pending : list Transmission) :
  id ∉ sender_id <$> pending →
  filter (λ tx, sender_id tx = id) pending = [].
Proof.
  induction pending as [|tx rest IH]; intros Habs; [done|].
  rewrite fmap_cons, not_elem_of_cons in Habs. destruct Habs as [Hne Habs].
  rewrite filter_cons, decide_False by done. by apply IH.
Qed.

Lemma pending_of_NoDup id m :
  NoDup (sender_id <$> _pending m) → (pending_of id m ≤ 1)%nat.
Proof.
  unfold pending_of. induction (_pending m) as [|tx rest IH]; intros Hnd; [simpl; lia|].
  rewrite fmap_cons in Hnd. apply NoDup_cons in Hnd as [Hfresh Hnd].
  rewrite filter_cons. destruct (decide (sender_id tx = id)) as [<-|Hne].
  - rewrite pending_of_absent by done. simpl. lia.
  - by apply IH.
Qed.

Lemma medium_inv_init cfg : medium_inv (Environment_init, Media_init cfg).
Proof.
  unfold medium_inv; simpl. split_and!.
  - intros e Hin. by apply elem_of_nil in Hin.
  - done.
  - done.
  - intros tx Hin. by apply elem_of_nil in Hin.
  - constructor.
Qed.

Lemma medium_inv_put f id env m m' env' r :
  put f id env m = (m', env', r) →
  medium_inv (env, m) → medium_inv (env', m').
Proof.
  unfold put, medium_inv. simpl.
  intros Hput (Hfuture & Hdue & Hidle & Hnow & Hnd).
  destruct (node_pipes m) as [|pipe pipes]; [by simplify_eq|].
  destruct (decide (_last_tx_time m !! id = Some (now env))) as [Hdup|Hnew];
    [by simplify_eq|].
  assert (Hfresh : id ∉ sender_id <$> _pending m).
  { intros (tx & -> & Hin)%list_elem_of_fmap. by apply Hnew, Hnow. }
  assert (Hnow' : ∀ tx, tx ∈ _pending m ++ [{| frame := f; sender_id := id |}] →
            <[id := now env]> (_last_tx_time m) !! sender_id tx = Some (now env)).
  { intros tx [Hin | ->%list_elem_of_singleton]%elem_of_app.
    - destruct (decide (sender_id tx = id)) as [->|Hne].
      + apply lookup_insert_eq.
      + rewrite lookup_insert_ne by done. by apply Hnow.
    - apply lookup_insert_eq. }
  assert (Hnd' : NoDup (sender_id <$> _pending m ++ [{| frame := f; sender_id := id |}])).
  { rewrite fmap_app. apply NoDup_app. split_and!; [done | | apply NoDup_singleton].
    intros x Hx ->%list_elem_of_singleton. done. }
  destruct (_propagating m) eqn:Hprop; simplify_eq; simpl.
  - split_and!; done.
  - split_and!; try done.
    + intros e [Hin | ->%list_elem_of_singleton]%elem_of_app; [by apply Hfuture|].
      simpl. lia.
    + intros _. eexists. split; [apply elem_of_app; right; left|]. simpl.
      split; [lia | done].
Qed.

Lemma medium_inv_fire env m e env' m' :
  env_step env = Some (e, env') →
  (sch_event e ≠ Propagation → m' = m) →
  (sch_event e = Propagation →
   _pending m' = [] ∧ _propagating m' = false ∧ _last_tx_time m' = _last_tx_time m) →
  medium_inv (env, m) → medium_inv (env', m').
Proof.
  unfold env_step, medium_inv. simpl.
  destruct (next_event (queue env)) as [e0|] eqn:Hnext; [|done].
  intros [= -> <-] Hother Hprop (Hfuture & Hdue & Hidle & Hnow & Hnd). simpl.
  pose proof (next_event_elem _ _ Hnext) as Hin.
  pose proof (next_event_earliest _ _ Hnext) as Hmin.
  assert (Hfuture' : ∀ x, x ∈ remove_event e (queue env) → sch_time e ≤ sch_time x).
  { intros x Hx. by apply Hmin, (remove_event_elem e). }
  destruct (decide (sch_event e = Propagation)) as [Hev|Hev].
  - destruct (Hprop Hev) as (Hp & Hq & Hl). rewrite Hp, Hq.
    split_and!; [done | done | done | | constructor].
    intros tx Htx. by apply elem_of_nil in Htx.
  - rewrite (Hother Hev).
    destruct (_propagating m) eqn:Hp.
    + destruct (Hdue eq_refl) as (x & Hx & Htime & Hxev).
      assert (Hsame : sch_time e = now env).
      { pose proof (Hmin x Hx). pose proof (Hfuture e Hin). lia. }
      rewrite Hsame. split_and!; try done.
      * intros y Hy. rewrite <- Hsame. by apply Hfuture'.
      * intros _. exists x. split_and!; [|done..].
        apply remove_event_other; [done | congruence].
    + rewrite (Hidle eq_refl). split_and!; [done | done | done | | constructor].
      intros tx Htx. by apply elem_of_nil in Htx.
Qed.

Lemma medium_inv_step s s' : step s s' → medium_inv s → medium_inv s'.
Proof.
  destruct 1 as [env m node | env m f id m' env' r Hput | env m ev delay Hdelay
                | env m e env' network g m' g' Hstep Hev Hprop
                | env m e env' Hstep Hev].
  - done.
  - by apply medium_inv_put with f id r.
  - unfold medium_inv. simpl. intros (Hfuture & Hdue & Hidle & Hnow & Hnd).
    split_and!; [| |done..].
    + intros e [Hin | ->%list_elem_of_singleton]%elem_of_app; [by apply Hfuture|].
      simpl. lia.
    + intros Hp. destruct (Hdue Hp) as (x & Hx & Hxt). exists x.
      split; [apply elem_of_app; by left | done].
  - apply medium_inv_fire with e; [done | done |].
    intros _. by apply _propagate_ok_state with network g g'.
  - apply medium_inv_fire with e; [done | done | done].
Qed.

Lemma medium_inv_reachable cfg s : reachable cfg s → medium_inv s.
Proof.
  unfold reachable. revert s. apply rtc_ind_r.
  - apply medium_inv_init.
  - intros s1 s2 _ Hstep IH. by apply medium_inv_step with s1.
Qed.

(** A recorded send stays recorded while the clock stands still. *)
Lemma last_tx_time_tick_step id s s' :
  tick_step s s' →
  _last_tx_time s.2 !! id = Some (now s.1) →
  _last_tx_time s'.2 !! id = Some (now s'.1).
Proof.
  intros [Hstep Hclock] Hrec. rewrite Hclock.
  destruct Hstep as [env m node | env m f id' m' env' r Hput | env m ev delay Hdelay
                    | env m e env' network g m' g' Hstep Hev Hprop
                    | env m e env' Hstep Hev]; simpl in *; try done.
  - unfold put in Hput. destruct (node_pipes m); [by simplify_eq|].
    destruct (decide (_last_tx_time m !! id' = Some (now env))); [by simplify_eq|].
    assert (Hins : <[id' := now env]> (_last_tx_time m) !! id = Some (now env)).
    { destruct (decide (id' = id)) as [->|Hne];
        [apply lookup_insert_eq | by rewrite lookup_insert_ne]. }
    destruct (_propagating m); by simplify_eq.
  - destruct (_propagate_ok_state _ _ _ _ _ Hprop) as (_ & _ & ->). done.
Qed.

Lemma last_tx_time_same_tick id s s' :
  rtc tick_step s s' →
  _last_tx_time s.2 !! id = Some (now s.1) →
  _last_tx_time s'.2 !! id = Some (now s'.1).
Proof.
  induction 1 as [|s1 s2 s3 Hstep Hrun IH]; [done|].
  intros Hrec. by apply IH, (last_tx_time_tick_step id s1).
Qed.

Lemma put_records_sender f id env m m' env' :
  put f id env m = (m', env', Ok tt) →
  _last_tx_time m' !! id = Some (now env').
Proof.
  unfold put. destruct (node_pipes m); [done|].
  destruct (decide (_last_tx_time m !! id = Some (now env))); [by intros [= <- <-]|].
  destruct (_propagating m); intros [= <- <-]; simpl; apply lookup_insert_eq.
Qed.

Lemma put_recorded_is_noop f id env m :
  _last_tx_time m !! id = Some (now env) →
  (put f id env m).1 = (m, env).
Proof.
  intros Hrec. unfold put. destruct (node_pipes m); [done|].
  by rewrite decide_True.
Qed.

(** C4.  In every state of a run the pending batch holds at most one
    transmission of any sender; and once a sender's [put] has returned, each
    further [put] of that sender, for as long as the clock stands still,
    returns the medium (its pending batch included) and the environment as
    it found them. *)
Theorem one_transmission_per_sender_and_tick cfg s :
  reachable cfg s →
  (∀ id, (pending_of id s.2 ≤ 1)%nat)
  ∧ (∀ f id m1 env1,
       put f id s.1 s.2 = (m1, env1, Ok tt) →
       ∀ s2, rtc tick_step (env1, m1) s2 →
       ∀ f', (put f' id s2.1 s2.2).1 = (s2.2, s2.1)).
Proof.
  intros Hrun. split.
  - intros id. apply pending_of_NoDup.
    by destruct (medium_inv_reachable cfg s Hrun) as (_ & _ & _ & _ & Hnd).
  - intros f id m1 env1 Hput s2 Htick f'.
    apply put_recorded_is_noop.
    apply (last_tx_time_same_tick id (env1, m1) s2 Htick).
    by apply put_records_sender with f (s.1) (s.2).
Qed.

End Properties.

(** * Further properties of the medium *)

Section MediumProperties.
Context `{PyRandom}.

(** ** What a resolution leaves alone *)

Lemma propagate_sweep_ids cfg network pending sender_ids pipes :
  ∀ g, (propagate_sweep cfg network pending sender_ids pipes g).1.1.*1 = pipes.*1.
Proof.
  induction pipes as [|pipe rest IH]; intros g; [done|]. simpl.
  pose proof (propagate_receiver_id cfg network pending sender_ids pipe g) as Hid.
  destruct (propagate_receiver cfg network pending sender_ids pipe g)
    as [[pipe' g'] [[]|e]]; simpl in *.
  - specialize (IH g').
    destruct (propagate_sweep cfg network pending sender_ids rest g')
      as [[rest' g''] r]. simpl in *. by f_equal.
  - by f_equal.
Qed.

(** X1.  Whether it returns or raises, [_propagate] leaves the
    configuration and the map of last transmission times as they were, and
    the pipes keep their node ids and their order. *)
Theorem propagate_keeps_structure network m g :
  m_config (_propagate network m g).1.1 = m_config m
  ∧ _last_tx_time (_propagate network m g).1.1 = _last_tx_time m
  ∧ (node_pipes (_propagate network m g).1.1).*1 = (node_pipes m).*1.
Proof.
  split_and!.
  - unfold _propagate. by destruct (propagate_sweep _ _ _ _ _ _) as [[? ?] [[]|?]].
  - unfold _propagate. by destruct (propagate_sweep _ _ _ _ _ _) as [[? ?] [[]|?]].
  - rewrite _propagate_node_pipes. apply propagate_sweep_ids.
Qed.

(** ** What a receiver can get *)

Lemma _loss_handler_survivor cfg rx rid g :
  (_loss_handler cfg rx rid g).1 = []
  ∨ ∃ tx, head rx = Some tx ∧ (_loss_handler cfg rx rid g).1 = [tx].
Proof.
  destruct rx as [|tx0 [|tx1 rest]]; [by left| |].
  - simpl. destruct (random g) as [r g'].
    destruct (float_lt r (base_loss_rate cfg)); [by left | right; by eexists].
  - unfold _loss_handler. destruct (ENABLE_CI cfg); [|by left].
    destruct (decide _); [by left|].
    destruct (random g) as [r g'].
    destruct (float_lt r _); [by left | right; by eexists].
Qed.

(** The candidates are pending transmissions whose sender is registered, in
    range and on the receiver's channel. *)
Lemma rx_candidates_heard network receiver pending :
  ∀ rx, rx_candidates network receiver pending = Ok rx →
  ∀ tx, tx ∈ rx →
    tx ∈ pending
    ∧ ∃ sender, network !! sender_id tx = Some sender
                ∧ _in_range sender receiver = true
                ∧ _on_channel sender receiver = true.
Proof.
  induction pending as [|tx0 rest IH]; intros rx; simpl.
  - intros [= <-] tx Hin. by apply elem_of_nil in Hin.
  - unfold get_node. destruct (network !! sender_id tx0) as [sender|] eqn:Hs; [|done].
    destruct (rx_candidates network receiver rest) as [rx0|]; [|done].
    destruct (_in_range sender receiver) eqn:Hr;
      destruct (_on_channel sender receiver) eqn:Hc; simpl;
      intros [= <-] tx Hin;
      try (destruct (IH rx0 eq_refl tx Hin) as [Hp Hrest];
           split; [by right | done]).
    apply elem_of_cons in Hin as [-> | Hin].
    + split; [left | by exists sender].
    + destruct (IH rx0 eq_refl tx Hin) as [Hp Hrest]. split; [by right | done].
Qed.

Lemma propagate_receiver_outcome cfg network pending rid store g :
  (propagate_receiver cfg network pending (sender_ids_of pending) (rid, store) g).1.1
    = (rid, store)
  ∨ ∃ tx sender receiver,
      tx ∈ pending
      ∧ (rid ∉ (sender_id <$> pending))
      ∧ network !! sender_id tx = Some sender
      ∧ network !! rid = Some receiver
      ∧ _in_range sender receiver = true
      ∧ _on_channel sender receiver = true
      ∧ (propagate_receiver cfg network pending (sender_ids_of pending) (rid, store) g).1.1
        = (rid, store ++ [frame tx]).
Proof.
  unfold propagate_receiver.
  destruct (decide (rid ∈ sender_ids_of pending)) as [|Hnot]; [by left|].
  unfold get_node. destruct (network !! rid) as [receiver|] eqn:Hrecv; [|by left].
  destruct (rx_candidates network receiver pending) as [rx|] eqn:Hrx; [|by left].
  destruct (_loss_handler_survivor cfg rx rid g) as [Hnone | (tx & Hhead & Hone)];
    destruct (_loss_handler cfg rx rid g) as [rx' g']; simpl in *; subst rx'.
  - by left.
  - right.
    assert (Hin : tx ∈ rx) by (destruct rx; simplify_eq/=; left).
    destruct (rx_candidates_heard network receiver pending rx Hrx tx Hin)
      as (Hpend & sender & Hs & Hr & Hc).
    exists tx, sender, receiver. split_and!; try done.
    intros Hsender. apply Hnot. unfold sender_ids_of. by apply elem_of_list_to_set.
Qed.

(** X2.  In one resolution a pipe gets at most one frame.  When it gets one,
    the frame is that of a pending transmission whose sender is registered,
    within range of the receiver and on its channel, and the receiver is
    not itself a sender of the batch. *)
Theorem propagate_delivers_at_most_one network m g i rid store :
  node_pipes m !! i = Some (rid, store) →
  node_pipes (_propagate network m g).1.1 !! i = Some (rid, store)
  ∨ ∃ tx sender receiver,
      tx ∈ _pending m
      ∧ (rid ∉ (sender_id <$> _pending m))
      ∧ network !! sender_id tx = Some sender
      ∧ network !! rid = Some receiver
      ∧ _in_range sender receiver = true
      ∧ _on_channel sender receiver = true
      ∧ node_pipes (_propagate network m g).1.1 !! i = Some (rid, store ++ [frame tx]).
Proof.
  intros Hi. rewrite _propagate_node_pipes.
  destruct (propagate_sweep_lookup (m_config m) network (_pending m)
              (sender_ids_of (_pending m)) (node_pipes m) g i (rid, store) Hi)
    as [Hsame | [g0 Hg0]]; [by left|].
  rewrite Hg0.
  destruct (propagate_receiver_outcome (m_config m) network (_pending m) rid store g0)
    as [-> | (tx & sender & receiver & ? & ? & ? & ? & ? & ? & ->)]; [by left|].
  right. by exists tx, sender, receiver.
Qed.

(** ** Channels *)

Lemma rx_candidates_unheard network receiver pending :
  (∀ tx sender, tx ∈ pending → network !! sender_id tx = Some sender →
                (_in_range sender receiver && _on_channel sender receiver) = false) →
  rx_candidates network receiver pending = Ok []
  ∨ ∃ e, rx_candidates network receiver pending = Raise e.
Proof.
  induction pending as [|tx rest IH]; intros Hdeaf; [by left|].
  simpl. unfold get_node.
  destruct (network !! sender_id tx) as [sender|] eqn:Hsender; [|by eauto].
  destruct IH as [-> | [e ->]]; [| |by eauto].
  { intros tx' sender' Hin. apply Hdeaf. by right. }
  rewrite (Hdeaf tx sender); [by left | left | done].
Qed.

(** X3.  A receiver whose channel differs from the channel of every sender
    of the pending batch gets nothing: its pipe is the same after
    [_propagate], and the sweep body takes no draw for it. *)
Theorem off_channel_never_receives network m g i rid store :
  node_pipes m !! i = Some (rid, store) →
  (∀ tx sender receiver,
     tx ∈ _pending m →
     network !! sender_id tx = Some sender →
     network !! rid = Some receiver →
     radio_channel (n_config receiver) ≠ radio_channel (n_config sender)) →
  node_pipes (_propagate network m g).1.1 !! i = Some (rid, store)
  ∧ ∀ g0, (propagate_receiver (m_config m) network (_pending m)
             (sender_ids_of (_pending m)) (rid, store) g0).1 = ((rid, store), g0).
Proof.
  intros Hi Hoff.
  assert (Hbody : ∀ g0, (propagate_receiver (m_config m) network (_pending m)
             (sender_ids_of (_pending m)) (rid, store) g0).1 = ((rid, store), g0)).
  { intros g0. unfold propagate_receiver.
    destruct (decide (rid ∈ sender_ids_of (_pending m))); [done|].
    unfold get_node. destruct (network !! rid) as [receiver|] eqn:Hrecv; [|done].
    destruct (rx_candidates_unheard network receiver (_pending m))
      as [-> | [e ->]]; [|done..].
    intros tx sender Hin Hsender. unfold _on_channel.
    rewrite decide_True by eauto. apply andb_false_r. }
  split; [|done].
  apply _propagate_pipe_unchanged; [done|]. intros g0. by rewrite Hbody.
Qed.

(** ** When a resolution fails *)

Lemma rx_candidates_raises_iff network receiver pending :
  is_raise (rx_candidates network receiver pending) = true
  ↔ ∃ tx, tx ∈ pending ∧ network !! sender_id tx = None.
Proof.
  induction pending as [|tx rest IH]; simpl.
  - split; [done|]. intros (tx & Hin & _). by apply elem_of_nil in Hin.
  - unfold get_node. destruct (network !! sender_id tx) as [sender|] eqn:Hs; simpl.
    + destruct (rx_candidates network receiver rest) as [rx|e]; simpl in *.
      * destruct (_ && _); simpl; split; [done | |done|].
        all: intros (tx' & [-> | Hin]%elem_of_cons & Hnone); [congruence|].
        all: apply IH; eauto.
      * split; [|done]. intros _. destruct IH as [IH _].
        destruct (IH eq_refl) as (tx' & Hin & Hnone). exists tx'. split; [by right | done].
    + split; [|done]. intros _. exists tx. split; [left | done].
Qed.

(** The sweep raises exactly when it reaches a pipe it cannot serve. *)
Lemma propagate_sweep_raises_iff cfg network pending sender_ids pipes :
  ∀ g, is_raise (propagate_sweep cfg network pending sender_ids pipes g).2 = true
  ↔ ∃ pipe, pipe ∈ pipes ∧ (pipe.1 ∉ sender_ids)
            ∧ (network !! pipe.1 = None
               ∨ ∃ tx, tx ∈ pending ∧ network !! sender_id tx = None).
Proof.
  induction pipes as [|[rid store] rest IH]; intros g.
  - simpl. split; [done|]. intros (pipe & Hin & _). by apply elem_of_nil in Hin.
  - assert (Hstay : ∀ g', is_raise (propagate_sweep cfg network pending sender_ids rest g').2 = true
              → ∃ pipe, pipe ∈ (rid, store) :: rest ∧ (pipe.1 ∉ sender_ids)
                  ∧ (network !! pipe.1 = None
                     ∨ ∃ tx, tx ∈ pending ∧ network !! sender_id tx = None)).
    { intros g' Hr. apply IH in Hr as (pipe & Hin & Hrest). exists pipe. split; [by right | done]. }
    simpl. unfold propagate_receiver.
    destruct (decide (rid ∈ sender_ids)) as [Hsender|Hnot].
    + destruct (propagate_sweep cfg network pending sender_ids rest g)
        as [[rest' g''] r] eqn:Hsweep. simpl.
      split.
      * intros Hr. apply (Hstay g). by rewrite Hsweep.
      * intros (pipe & [-> | Hin]%elem_of_cons & Hp & Hbad); [done|].
        pose proof (proj2 (IH g)) as Hback. rewrite Hsweep in Hback.
        apply Hback. by exists pipe.
    + unfold get_node. destruct (network !! rid) as [receiver|] eqn:Hrecv.
      * destruct (rx_candidates network receiver pending) as [rx|e] eqn:Hrx.
        -- destruct (_loss_handler cfg rx rid g) as [rx' g'].
           destruct (propagate_sweep cfg network pending sender_ids rest g')
             as [[rest' g''] r] eqn:Hsweep. simpl.
           split.
           ++ intros Hr. apply (Hstay g'). by rewrite Hsweep.
           ++ intros (pipe & [-> | Hin]%elem_of_cons & Hp & Hbad).
              ** simpl in Hbad. destruct Hbad as [Hbad | Hbad]; [congruence|].
                 apply (rx_candidates_raises_iff network receiver) in Hbad.
                 by rewrite Hrx in Hbad.
              ** pose proof (proj2 (IH g')) as Hback. rewrite Hsweep in Hback.
                 apply Hback. by exists pipe.
        -- simpl. split; [|done]. intros _. exists (rid, store).
           split; [left|]. split; [done|]. right.
           apply (rx_candidates_raises_iff network receiver). by rewrite Hrx.
      * simpl. split; [|done]. intros _. exists (rid, store).
        split; [left|]. split; [done|]. by left.
Qed.

(** X4.  [_propagate] raises exactly when some pipe that is not a sender of
    the batch belongs to a node missing from the registry, or some sender of
    the batch is missing from it.  When it raises, the batch stays pending
    and the medium stays marked as propagating. *)
Theorem propagate_raises_iff network m g :
  (is_raise (_propagate network m g).2 = true
   ↔ ∃ pipe, pipe ∈ node_pipes m
             ∧ (pipe.1 ∉ (sender_id <$> _pending m))
             ∧ (network !! pipe.1 = None
                ∨ ∃ tx, tx ∈ _pending m ∧ network !! sender_id tx = None))
  ∧ (is_raise (_propagate network m g).2 = true →
     _pending (_propagate network m g).1.1 = _pending m
     ∧ _propagating (_propagate network m g).1.1 = _propagating m).
Proof.
  split.
  - assert (Hres : is_raise (_propagate network m g).2
            = is_raise (propagate_sweep (m_config m) network (_pending m)
                          (sender_ids_of (_pending m)) (node_pipes m) g).2).
    { unfold _propagate. by destruct (propagate_sweep _ _ _ _ _ _) as [[? ?] [[]|?]]. }
    rewrite Hres, propagate_sweep_raises_iff.
    split; intros (pipe & Hin & Hnot & Hbad); exists pipe; split_and!; try done.
    + intros Hs. apply Hnot. unfold sender_ids_of. by apply elem_of_list_to_set.
    + intros Hs. apply Hnot. unfold sender_ids_of in Hs. by apply elem_of_list_to_set in Hs.
  - unfold _propagate. by destruct (propagate_sweep _ _ _ _ _ _) as [[? ?] [[]|?]].
Qed.

(** ** Draws *)

Lemma propagate_sweep_draws cfg network pending sender_ids pipes :
  ∀ g, ∃ n, (n ≤ length pipes)%nat
            ∧ (propagate_sweep cfg network pending sender_ids pipes g).1.2 = draws n g.
Proof.
  induction pipes as [|pipe rest IH]; intros g; [by exists 0%nat|]. simpl.
  pose proof (propagate_receiver_draws cfg network pending sender_ids pipe g) as Hd.
  destruct (propagate_receiver cfg network pending sender_ids pipe g)
    as [[pipe' g'] [[]|e]]; simpl in *.
  - destruct (IH g') as (n & Hn & Hg).
    destruct (propagate_sweep cfg network pending sender_ids rest g')
      as [[rest' g''] r]. simpl in *. subst g''.
    destruct Hd as [-> | ->].
    + exists n. split; [lia | done].
    + exists (S n). split; [lia | apply draws_S].
  - destruct Hd as [-> | ->]; [by exists 0%nat; split; [lia|] |].
    exists 1%nat. split; [lia | done].
Qed.

(** X5.  A resolution takes at most one draw for each registered pipe: the
    generator it hands back is the one it was given, advanced by a number of
    draws that does not exceed the number of pipes. *)
Theorem propagate_draws_at_most_one_per_pipe network m g :
  ∃ n, (n ≤ length (node_pipes m))%nat
       ∧ (_propagate network m g).1.2 = draws n g.
Proof.
  destruct (propagate_sweep_draws (m_config m) network (_pending m)
              (sender_ids_of (_pending m)) (node_pipes m) g) as (n & Hn & Hg).
  exists n. split; [done|]. unfold _propagate.
  by destruct (propagate_sweep _ _ _ _ _ _) as [[? ?] [[]|?]].
Qed.

(** ** A batch of sends *)

Lemma first_sends_nil_iff seen sends :
  first_sends seen sends = [] ↔ ∀ send, send ∈ sends → send.2 ∈ seen.
Proof.
  revert seen. induction sends as [|[f id] rest IH]; intros seen; simpl.
  - split; [|done]. intros _ send Hin. by apply elem_of_nil in Hin.
  - destruct (decide (id ∈ seen)) as [Hseen|Hnew].
    + rewrite IH. split.
      * intros Hall send [-> | Hin]%elem_of_cons; [done | by apply Hall].
      * intros Hall send Hin. apply Hall. by right.
    + split; [done|]. intros Hall. exfalso. apply Hnew, (Hall (f, id)). left.
Qed.

Lemma put_all_cons f id rest env m :
  put_all ((f, id) :: rest) env m
  = put_all rest (put f id env m).1.2 (put f id env m).1.1.
Proof. unfold put_all. simpl. by destruct (put f id env m) as [[m' env'] r]. Qed.

(** A [put] that is admitted. *)
Lemma put_admitted f id env m :
  node_pipes m ≠ [] →
  _last_tx_time m !! id ≠ Some (now env) →
  (put f id env m).1 =
    ({| m_config := m_config m; node_pipes := node_pipes m;
        _pending := _pending m ++ [ {| frame := f; sender_id := id |} ];
        _propagating := true;
        _last_tx_time := <[id := now env]> (_last_tx_time m) |},
     if _propagating m then env else schedule env Propagation 0).
Proof.
  intros Hpipes Hnew. unfold put. destruct (node_pipes m); [done|].
  rewrite decide_False by done. by destruct (_propagating m).
Qed.

(** The medium and the environment after a run of sends, in a medium that
    has a pipe and whose recorded senders of the current tick are [seen]. *)
Lemma put_all_first_sends sends :
  ∀ env m seen,
    node_pipes m ≠ [] →
    (∀ id, _last_tx_time m !! id = Some (now env) ↔ id ∈ seen) →
    _pending (put_all sends env m).1 = _pending m ++ first_sends seen sends
    ∧ queue (put_all sends env m).2 =
      (if _propagating m || bool_decide (first_sends seen sends = [])
       then queue env
       else queue env ++ [ {| sch_time := now env; sch_seq := eid env;
                              sch_event := Propagation |} ]).
Proof.
  induction sends as [|[f id] rest IH]; intros env m seen Hpipes Hseen.
  - simpl. rewrite app_nil_r. split; [done|]. by destruct (_propagating m).
  - rewrite put_all_cons. simpl.
    destruct (decide (id ∈ seen)) as [Hdup|Hnew].
    + rewrite put_recorded_is_noop by (by apply Hseen). simpl. by apply IH.
    + assert (Hfresh : _last_tx_time m !! id ≠ Some (now env)) by (by rewrite Hseen).
      rewrite (put_admitted f id env m Hpipes Hfresh). simpl.
      set (m1 := {| m_config := m_config m; node_pipes := node_pipes m;
                    _pending := _pending m ++ [ {| frame := f; sender_id := id |} ];
                    _propagating := true;
                    _last_tx_time := <[id := now env]> (_last_tx_time m) |}).
      set (env1 := if _propagating m then env else schedule env Propagation 0).
      assert (Hnow : now env1 = now env) by (subst env1; by destruct (_propagating m)).
      destruct (IH env1 m1 ({[id]} ∪ seen)) as [Hpend Hqueue]; [done| |].
      { intros id'. rewrite Hnow, elem_of_union, elem_of_singleton, <- Hseen.
        subst m1. simpl. destruct (decide (id = id')) as [->|Hne].
        - rewrite lookup_insert_eq. split; [by left | done].
        - rewrite lookup_insert_ne by done. split; [by right | intros [->|]; done]. }
      rewrite Hpend, Hqueue. subst m1 env1. simpl.
      split; [by rewrite <- app_assoc|].
      destruct (_propagating m); simpl; [done|]. by rewrite Z.add_0_r.
Qed.

(** X6.  A run of sends within one tick, into an idle medium that has a pipe
    and has recorded no send at the current time, leaves as the pending
    batch the first send of each sender, in the order of the sends, and
    schedules exactly one propagation event, at the current time, unless
    there was no send at all. *)
Theorem batch_is_first_send_per_sender sends env m :
  node_pipes m ≠ [] →
  _pending m = [] →
  _propagating m = false →
  (∀ id, _last_tx_time m !! id ≠ Some (now env)) →
  _pending (put_all sends env m).1 = first_sends ∅ sends
  ∧ queue (put_all sends env m).2 =
    queue env ++ (if bool_decide (sends = []) then []
                  else [ {| sch_time := now env; sch_seq := eid env;
                            sch_event := Propagation |} ]).
Proof.
  intros Hpipes Hpend Hidle Hfresh.
  destruct (put_all_first_sends sends env m ∅ Hpipes) as [Hp Hq].
  { intros id. split; [by intros ?%Hfresh | by intros ?%not_elem_of_empty]. }
  rewrite Hp, Hq, Hpend, Hidle. simpl. split; [done|].
  destruct sends as [|[f id] rest]; simpl.
  - by rewrite app_nil_r.
  - rewrite decide_False by apply not_elem_of_empty. done.
Qed.

(** ** Pipes during a run *)

Lemma put_node_pipes f id env m : node_pipes (put f id env m).1.1 = node_pipes m.
Proof.
  unfold put. destruct (node_pipes m) eqn:Hp; [done|].
  destruct (decide _); [done|]. by destruct (_propagating m).
Qed.

Lemma step_pipes s s' :
  step s s' → (node_pipes s.2).*1 `prefix_of` (node_pipes s'.2).*1.
Proof.
  destruct 1 as [env m node | env m f id m' env' r Hput | env m ev delay Hdelay
                | env m e env' network g m' g' Hstep Hev Hprop
                | env m e env' Hstep Hev]; simpl; try done.
  - rewrite fmap_app. by apply prefix_app_r.
  - pose proof (put_node_pipes f id env m) as Hp. rewrite Hput in Hp. simpl in Hp.
    by rewrite Hp.
  - pose proof (_propagate_node_pipes network m g) as Hp.
    rewrite Hprop in Hp. simpl in Hp.
    by rewrite Hp, propagate_sweep_ids.
Qed.

Lemma run_pipes s s' :
  rtc step s s' → (node_pipes s.2).*1 `prefix_of` (node_pipes s'.2).*1.
Proof.
  induction 1 as [|s1 s2 s3 Hstep Hrun IH]; [done|].
  etrans; [by apply step_pipes | done].
Qed.

(** X7.  In a run the pipes only grow: the node ids registered at one moment
    are, in the same order, a prefix of those registered at any later
    moment.  So once some node has connected, [put] never raises for the
    rest of the run. *)
Theorem pipes_persist s s' :
  rtc step s s' →
  (node_pipes s.2).*1 `prefix_of` (node_pipes s'.2).*1
  ∧ (node_pipes s.2 ≠ [] → ∀ f id, (put f id s'.1 s'.2).2 = Ok tt).
Proof.
  intros Hrun. pose proof (run_pipes s s' Hrun) as Hprefix.
  split; [done|]. intros Hne f id. unfold put.
  destruct (node_pipes s'.2) as [|pipe pipes] eqn:Hp.
  - apply prefix_nil_inv in Hprefix. by destruct (node_pipes s.2).
  - destruct (decide _); [done|]. by destruct (_propagating s'.2).
Qed.

(** X8.  In every state of a run, a batch that is not empty has its
    propagation event in the queue, due at the current time: no send is
    left without a resolution in its own tick. *)
Theorem pending_batch_is_scheduled cfg s :
  reachable cfg s →
  _pending s.2 ≠ [] →
  ∃ e, e ∈ queue s.1 ∧ sch_time e = now s.1 ∧ sch_event e = Propagation.
Proof.
  intros Hrun Hpending.
  destruct (medium_inv_reachable cfg s Hrun) as (_ & Hdue & Hidle & _).
  apply Hdue. destruct (_propagating s.2); [done|]. by destruct Hpending, Hidle.
Qed.

End MediumProperties.

(** * Further properties of the node radio *)

Section RadioProperties.
Context `{PyRandom}.

(** ** Sending *)

Lemma send_listening self f env m :
  radio_rx_enable self = true →
  send self f env m =
    (let self' := {| n_config := n_config self;
                     flood_beacon_ids := flood_beacon_ids self;
                     flood_beacon_times := flood_beacon_times self;
                     local_tx_count := local_tx_count self + 1;
                     radio_rx_enable := false |} in
     match put f (node_id (n_config self)) env m with
     | (m', env', Raise e) => (self', m', env', Raise e)
     | (m', env', Ok _) =>
       (self', m', process env' (ReenableRx (node_id (n_config self))), Ok tt)
     end).
Proof. intros Hon. unfold send. by rewrite Hon. Qed.

(** X9.  A listening node that sends counts the attempt and locks its
    radio whatever the medium does with the frame: the counter grows by one
    and [radio_rx_enable] becomes false also when the medium drops the
    frame as a second send of the tick, or raises.  The medium is left as
    [put] leaves it, and the bookkeeping of floods is not touched. *)
Theorem send_counts_every_attempt self f env m :
  radio_rx_enable self = true →
  local_tx_count (send self f env m).1.1.1 = local_tx_count self + 1
  ∧ radio_rx_enable (send self f env m).1.1.1 = false
  ∧ flood_beacon_ids (send self f env m).1.1.1 = flood_beacon_ids self
  ∧ flood_beacon_times (send self f env m).1.1.1 = flood_beacon_times self
  ∧ n_config (send self f env m).1.1.1 = n_config self
  ∧ (send self f env m).1.1.2 = (put f (node_id (n_config self)) env m).1.1
  ∧ (send self f env m).2 = (put f (node_id (n_config self)) env m).2.
Proof.
  intros Hon. rewrite (send_listening _ _ _ _ Hon).
  by destruct (put f (node_id (n_config self)) env m) as [[m' env'] [[]|e]].
Qed.

(** ** Receiving *)

Lemma receive_result self f env :
  (receive self f env).2 =
  if radio_rx_enable self
     && negb (bool_decide (DST f ≠ 0)
              && bool_decide (DST f ≠ node_id (n_config self)))
  then Some f else None.
Proof.
  unfold receive. destruct (radio_rx_enable self); simpl; [|done].
  destruct (_ && _); simpl; [done|].
  destruct (bool_decide (TYPE f = _)); [by destruct (PAYLOAD f) | done].
Qed.

Lemma receive_admits self f env :
  (receive self f env).2 = Some f
  ↔ radio_rx_enable self = true ∧ (DST f = 0 ∨ DST f = node_id (n_config self)).
Proof.
  rewrite receive_result.
  destruct (radio_rx_enable self); simpl; [|split; [done | by intros [? _]]].
  repeat case_bool_decide; simpl; split; intros Hx;
    try discriminate; try (split; [done | lia]); try (destruct Hx as [_ Hx]; lia); done.
Qed.

Lemma receive_dropped self f env :
  (receive self f env).2 ≠ Some f →
  (receive self f env).2 = None ∧ (receive self f env).1 = self.
Proof.
  unfold receive. destruct (radio_rx_enable self); simpl; [|done].
  destruct (_ && _); simpl; [done|].
  destruct (bool_decide (TYPE f = _)); [by destruct (PAYLOAD f) | done].
Qed.

(** X11.  [receive] hands a frame on exactly when the radio is enabled and
    the frame is a broadcast or addressed to this node; a frame it drops
    leaves the node as it was. *)
Theorem receive_admits_iff self f env :
  ((receive self f env).2 = Some f
   ↔ radio_rx_enable self = true ∧ (DST f = 0 ∨ DST f = node_id (n_config self)))
  ∧ ((receive self f env).2 ≠ Some f →
     (receive self f env).2 = None ∧ (receive self f env).1 = self).
Proof. split; [apply receive_admits | apply receive_dropped]. Qed.

Lemma _record_flood_beacons_ids self payload env :
  flood_beacon_ids (_record_flood_beacons self payload env)
  = {[FLOOD_ID_of payload]} ∪ flood_beacon_ids self.
Proof. done. Qed.

Lemma _record_flood_beacons_times self payload env flood_id :
  flood_beacon_times (_record_flood_beacons self payload env) !! flood_id
  = if decide (FLOOD_ID_of payload = flood_id)
    then Some ({[now env]} ∪ default ∅ (flood_beacon_times self !! flood_id))
    else flood_beacon_times self !! flood_id.
Proof.
  unfold _record_flood_beacons. simpl. rewrite lookup_insert.
  by destruct (decide (FLOOD_ID_of payload = flood_id)) as [->|].
Qed.

(** What [receive] does to the node: nothing, or the record of the flood. *)
Lemma receive_node self f env :
  (receive self f env).1 = self
  ∨ ((receive self f env).1 = _record_flood_beacons self (PAYLOAD f) env
     ∧ (receive self f env).2 = Some f ∧ TYPE f = "FLOOD_BEACON").
Proof.
  unfold receive. destruct (radio_rx_enable self); simpl; [|by left].
  destruct (_ && _); [by left|].
  destruct (bool_decide (TYPE f = "FLOOD_BEACON")) eqn:Ht; [|by left].
  apply bool_decide_eq_true in Ht. right. by destruct (PAYLOAD f).
Qed.

Lemma receive_beacon self f env :
  (receive self f env).2 = Some f →
  TYPE f = "FLOOD_BEACON" →
  (receive self f env).1 = _record_flood_beacons self (PAYLOAD f) env.
Proof.
  unfold receive. destruct (radio_rx_enable self); simpl; [|done].
  destruct (_ && _); [done|]. intros _ Ht.
  rewrite bool_decide_eq_true_2 by done. by destruct (PAYLOAD f).
Qed.

(** X12.  [receive] never forgets and never touches the radio: the flood
    ids seen and the reception times of each flood only grow, and the
    configuration, the transmission count and [radio_rx_enable] stay.  A
    flood beacon it hands on has its flood id among the ids seen afterwards,
    and the current time among the reception times of that flood. *)
Theorem receive_only_adds self f env :
  flood_beacon_ids self ⊆ flood_beacon_ids (receive self f env).1
  ∧ (∀ flood_id times,
       flood_beacon_times self !! flood_id = Some times →
       ∃ times', flood_beacon_times (receive self f env).1 !! flood_id = Some times'
                 ∧ times ⊆ times')
  ∧ n_config (receive self f env).1 = n_config self
  ∧ local_tx_count (receive self f env).1 = local_tx_count self
  ∧ radio_rx_enable (receive self f env).1 = radio_rx_enable self
  ∧ ((receive self f env).2 = Some f → TYPE f = "FLOOD_BEACON" →
     FLOOD_ID_of (PAYLOAD f) ∈ flood_beacon_ids (receive self f env).1
     ∧ ∃ times, flood_beacon_times (receive self f env).1 !! FLOOD_ID_of (PAYLOAD f)
                = Some times ∧ now env ∈ times).
Proof.
  split_and!.
  - destruct (receive_node self f env) as [-> | (-> & _)]; [done|].
    rewrite _record_flood_beacons_ids. apply union_subseteq_r.
  - intros flood_id times Hlook.
    destruct (receive_node self f env) as [-> | (-> & _)]; [by exists times|].
    rewrite _record_flood_beacons_times.
    destruct (decide _); [|by exists times].
    eexists. split; [done|]. rewrite Hlook. simpl. apply union_subseteq_r.
  - by destruct (receive_node self f env) as [-> | (-> & _)].
  - by destruct (receive_node self f env) as [-> | (-> & _)].
  - by destruct (receive_node self f env) as [-> | (-> & _)].
  - intros Hadm Ht. rewrite (receive_beacon self f env Hadm Ht).
    rewrite _record_flood_beacons_ids, _record_flood_beacons_times.
    rewrite decide_True by done. split.
    + by apply elem_of_union_l, elem_of_singleton.
    + eexists. split; [done|]. by apply elem_of_union_l, elem_of_singleton.
Qed.

(** ** The bookkeeping of floods *)

Lemma bookkeeping_ok_record self payload env :
  bookkeeping_ok self → bookkeeping_ok (_record_flood_beacons self payload env).
Proof.
  intros Hok flood_id.
  rewrite _record_flood_beacons_ids, _record_flood_beacons_times,
    elem_of_union, elem_of_singleton.
  destruct (decide (FLOOD_ID_of payload = flood_id)) as [->|Hne].
  - split; [|by left]. intros _. eexists. split; [done|].
    intros Hempty. assert (Hin : now env ∈ (∅ : gset Z)); [|by apply not_elem_of_empty in Hin].
    rewrite <- Hempty. by apply elem_of_union_l, elem_of_singleton.
  - split.
    + intros [-> | Hin]; [done | by apply Hok].
    + intros Hx. right. by apply Hok.
Qed.

Lemma bookkeeping_ok_same self self' :
  flood_beacon_ids self' = flood_beacon_ids self →
  flood_beacon_times self' = flood_beacon_times self →
  bookkeeping_ok self → bookkeeping_ok self'.
Proof. unfold bookkeeping_ok. by intros -> ->. Qed.

Lemma trigger_flood_node self u env m :
  flood_beacon_ids (sink_node (trigger_flood self u env m).1.1.1)
  = {[u]} ∪ flood_beacon_ids (sink_node self)
  ∧ flood_beacon_times (sink_node (trigger_flood self u env m).1.1.1)
    = <[u := {[now env]} ∪ default ∅ (flood_beacon_times (sink_node self) !! u)]>
        (flood_beacon_times (sink_node self)).
Proof.
  unfold trigger_flood, send. simpl.
  destruct (radio_rx_enable (sink_node self)); simpl; [|done].
  by destruct (put _ _ env m) as [[m' env'] [[]|e]].
Qed.

(** X13.  The bookkeeping of floods stays consistent: a node starts with
    the flood ids seen equal to the floods that have a reception time (none),
    and [receive], [send], the re-enabling of the radio, [set_channel] and
    the sink's [trigger_flood] all keep it so; in particular every flood id
    seen has a non-empty set of reception times. *)
Theorem bookkeeping_stays_consistent self f env m u c cfg m0 (sink : Sink) :
  bookkeeping_ok self →
  bookkeeping_ok (sink_node sink) →
  bookkeeping_ok (Node_init cfg m0).1
  ∧ bookkeeping_ok (receive self f env).1
  ∧ bookkeeping_ok (send self f env m).1.1.1
  ∧ bookkeeping_ok (reenable_rx self)
  ∧ bookkeeping_ok (set_channel self c)
  ∧ bookkeeping_ok (sink_node (trigger_flood sink u env m).1.1.1).
Proof.
  intros Hok Hsink. split_and!.
  - intros flood_id. simpl. rewrite lookup_empty. split.
    + by intros ?%not_elem_of_empty.
    + by intros (? & ? & _).
  - destruct (receive_node self f env) as [-> | (-> & _)]; [done|].
    by apply bookkeeping_ok_record.
  - apply (bookkeeping_ok_same self); [| |done]; unfold send;
      destruct (radio_rx_enable self); simpl; try done;
      by destruct (put _ _ env m) as [[m' env'] [[]|e]].
  - by apply (bookkeeping_ok_same self).
  - by apply (bookkeeping_ok_same self).
  - destruct (trigger_flood_node sink u env m) as [Hids Htimes].
    pose proof (bookkeeping_ok_record (sink_node sink) (FloodBeaconMessage u) env Hsink)
      as Hrec.
    apply (bookkeeping_ok_same (_record_flood_beacons (sink_node sink)
                                  (FloodBeaconMessage u) env)); done.
Qed.

(** ** The guard time *)

(** X14.  From a send until the radio is re-enabled the node hears nothing:
    [receive] drops every frame and leaves the node as it is.  Once the
    re-enable process has run, a broadcast frame is handed on again. *)
Theorem guard_time_blocks_reception self f env m f' env' :
  radio_rx_enable self = true →
  receive (send self f env m).1.1.1 f' env' = ((send self f env m).1.1.1, None)
  ∧ (DST f' = 0 →
     (receive (reenable_rx (send self f env m).1.1.1) f' env').2 = Some f').
Proof.
  intros Hon. rewrite (send_listening _ _ _ _ Hon).
  destruct (put f (node_id (n_config self)) env m) as [[m' env1] [[]|e]]; simpl.
  all: split; [done|]; intros Hb; unfold receive; simpl.
  all: rewrite (bool_decide_eq_false_2 (DST f' ≠ 0)) by (intros ?; done); simpl.
  all: destruct (bool_decide (TYPE f' = "FLOOD_BEACON")); [by destruct (PAYLOAD f')|done].
Qed.

(** ** Relaying *)

Lemma receive_turn_seen self f env :
  FLOOD_ID_of (PAYLOAD f) ∈ flood_beacon_ids self →
  (receive_turn self f env).2 = env.
Proof.
  intros Hseen. unfold receive_turn.
  rewrite (bool_decide_eq_false_2 (FLOOD_ID_of (PAYLOAD f) ∉ flood_beacon_ids self))
    by (intros Hn; done).
  rewrite andb_false_r. by destruct (receive self f env) as [self' [?|]].
Qed.

Lemma receive_turn_node self f env :
  (receive_turn self f env).1 = (receive self f env).1.
Proof.
  unfold receive_turn. destruct (receive self f env) as [self' [?|]]; [|done].
  by destruct (_ && _).
Qed.





(** ** The flood trigger of the sink *)

Lemma send_flood_beacon_ids self f env m :
  flood_beacon_ids (send self f env m).1.1.1 = flood_beacon_ids self.
Proof.
  unfold send. destruct (radio_rx_enable self); simpl; [|done].
  by destruct (put _ _ env m) as [[m' env'] [[]|e]].
Qed.

(** No operation of a node forgets a flood. *)
Lemma node_op_flood_beacon_ids n n' :
  node_op n n' → flood_beacon_ids n ⊆ flood_beacon_ids n'.
Proof.
  destruct 1 as [self f env | self f env m | self | self c | sink u env m].
  - rewrite receive_turn_node.
    destruct (receive_node self f env) as [-> | (-> & _)]; [done|].
    rewrite _record_flood_beacons_ids. apply union_subseteq_r.
  - by rewrite send_flood_beacon_ids.
  - done.
  - done.
  - destruct (trigger_flood_node sink u env m) as [-> _]. apply union_subseteq_r.
Qed.

Lemma node_ops_flood_beacon_ids n n' :
  rtc node_op n n' → flood_beacon_ids n ⊆ flood_beacon_ids n'.
Proof.
  induction 1 as [|n1 n2 n3 Hop Hops IH]; [done|].
  etrans; [by apply node_op_flood_beacon_ids | done].
Qed.

(** X16.  The sink never relays the flood it has triggered.  After
    [trigger_flood] with the flood identifier [u] the radio is locked; once
    it has been re-enabled the sink hears again, so a broadcast beacon of
    flood [u] that comes back from a neighbour passes [receive], and yet the
    turn of the receive loop starts no process for it.  The same holds in
    every later state of the sink, after any number of receive turns, sends,
    re-enablings, channel changes and further floods. *)
Theorem sink_does_not_relay_own_flood self u env m f2 env2 :
  FLOOD_ID_of (PAYLOAD f2) = u →
  let sink' := sink_node (trigger_flood self u env m).1.1.1 in
  radio_rx_enable sink' = false
  ∧ (DST f2 = 0 → (receive (reenable_rx sink') f2 env2).2 = Some f2)
  ∧ (receive_turn (reenable_rx sink') f2 env2).2 = env2
  ∧ (∀ later, rtc node_op sink' later → (receive_turn later f2 env2).2 = env2).
Proof.
  intros Hflood sink'.
  assert (Hseen : u ∈ flood_beacon_ids sink').
  { subst sink'. destruct (trigger_flood_node self u env m) as [-> _].
    by apply elem_of_union_l, elem_of_singleton. }
  split_and!.
  - subst sink'. unfold trigger_flood, send. simpl.
    destruct (radio_rx_enable (sink_node self)) eqn:Hon; simpl; [|done].
    by destruct (put _ _ env m) as [[m' env'] [[]|e]].
  - intros Hdst. apply receive_admits. split; [done | by left].
  - apply receive_turn_seen. by rewrite Hflood.
  - intros later Hops. apply receive_turn_seen. rewrite Hflood.
    by apply (node_ops_flood_beacon_ids sink' later Hops).
Qed.

(** X17.  A listening sink whose medium has a pipe, and which has not sent
    in the current tick, triggers a flood as follows: the sequence number
    grows by one and is the [SEQ] of the beacon; the beacon is a broadcast
    from the sink carrying the flood identifier; it is appended to the
    pending batch; the radio is locked and the send counted; and the
    environment gets, in this order, the propagation event (if the medium
    was idle), the re-enable process and the flood process.  Every
    listening node that is handed this beacon accepts it and records the
    flood. *)
Theorem trigger_flood_sends_beacon self u env m :
  radio_rx_enable (sink_node self) = true →
  node_pipes m ≠ [] →
  _last_tx_time m !! node_id (n_config (sink_node self)) ≠ Some (now env) →
  let id := node_id (n_config (sink_node self)) in
  let beacon := {| TYPE := "FLOOD_BEACON"; SRC := id; DST := 0;
                   SEQ := msg_seq self + 1; PAYLOAD := FloodBeaconMessage u |} in
  let r := trigger_flood self u env m in
  r.2 = Ok tt
  ∧ msg_seq r.1.1.1 = msg_seq self + 1
  ∧ _pending r.1.1.2 = _pending m ++ [ {| frame := beacon; sender_id := id |} ]
  ∧ local_tx_count (sink_node r.1.1.1) = local_tx_count (sink_node self) + 1
  ∧ radio_rx_enable (sink_node r.1.1.1) = false
  ∧ r.1.2 = process
              (process (if _propagating m then env else schedule env Propagation 0)
                       (ReenableRx id))
              (FloodProcess id beacon)
  ∧ ∀ other env', radio_rx_enable other = true →
      (receive other beacon env').2 = Some beacon
      ∧ u ∈ flood_beacon_ids (receive other beacon env').1.
Proof.
  intros Hon Hpipes Hfresh id beacon r.
  assert (Hr : r = ({| sink_node :=
                         {| n_config := n_config (sink_node self);
                            flood_beacon_ids := {[u]} ∪ flood_beacon_ids (sink_node self);
                            flood_beacon_times :=
                              <[u := {[now env]} ∪ default ∅
                                       (flood_beacon_times (sink_node self) !! u)]>
                                (flood_beacon_times (sink_node self));
                            local_tx_count := local_tx_count (sink_node self) + 1;
                            radio_rx_enable := false |};
                       msg_seq := msg_seq self + 1 |},
                    (put beacon id env m).1.1,
                    process (process (put beacon id env m).1.2 (ReenableRx id))
                            (FloodProcess id beacon),
                    Ok tt)).
  { subst r. unfold trigger_flood, send. simpl. rewrite Hon. simpl.
    fold id. unfold generate_frame. fold beacon.
    pose proof (put_admitted beacon id env m Hpipes Hfresh) as Hput.
    destruct (put beacon id env m) as [[m' env1] [[]|e]] eqn:Hp; simpl in *; [done|].
    exfalso. unfold put in Hp. destruct (node_pipes m); [done|].
    rewrite decide_False in Hp by done. by destruct (_propagating m). }
  rewrite Hr. simpl. rewrite (put_admitted beacon id env m Hpipes Hfresh). simpl.
  split_and!; try done.
  intros other env' Hlisten.
  assert (Hadm : (receive other beacon env').2 = Some beacon).
  { apply receive_admits. split; [done | by left]. }
  split; [done|].
  rewrite (receive_beacon other beacon env' Hadm eq_refl), _record_flood_beacons_ids.
  by apply elem_of_union_l, elem_of_singleton.
Qed.

(** X18.  A sink whose radio is locked still opens the flood: it numbers
    and records it and starts the flood process, but hands nothing to the
    medium and does not count a transmission. *)
Theorem trigger_flood_while_guarded self u env m :
  radio_rx_enable (sink_node self) = false →
  let id := node_id (n_config (sink_node self)) in
  let beacon := {| TYPE := "FLOOD_BEACON"; SRC := id; DST := 0;
                   SEQ := msg_seq self + 1; PAYLOAD := FloodBeaconMessage u |} in
  let r := trigger_flood self u env m in
  r.2 = Ok tt
  ∧ r.1.1.2 = m
  ∧ r.1.2 = process env (FloodProcess id beacon)
  ∧ msg_seq r.1.1.1 = msg_seq self + 1
  ∧ u ∈ flood_beacon_ids (sink_node r.1.1.1)
  ∧ local_tx_count (sink_node r.1.1.1) = local_tx_count (sink_node self)
  ∧ radio_rx_enable (sink_node r.1.1.1) = false.
Proof.
  intros Hoff id beacon r. subst r. unfold trigger_flood, send. simpl.
  rewrite Hoff. simpl. split_and!; try done.
  by apply elem_of_union_l, elem_of_singleton.
Qed.

(** ** A node and its medium *)

Lemma put_now f id env m : now (put f id env m).1.2 = now env.
Proof.
  unfold put. destruct (node_pipes m); [done|].
  destruct (decide _); [done|]. by destruct (_propagating m).
Qed.

(** No operation of a node changes its id. *)
Lemma node_op_node_id n n' :
  node_op n n' → node_id (n_config n') = node_id (n_config n).
Proof.
  destruct 1 as [self f env | self f env m | self | self c | sink u env m].
  - rewrite receive_turn_node.
    by destruct (receive_node self f env) as [-> | (-> & _)].
  - unfold send. destruct (radio_rx_enable self); simpl; [|done].
    by destruct (put _ _ env m) as [[m' env'] [[]|e]].
  - done.
  - done.
  - unfold trigger_flood, send. simpl.
    destruct (radio_rx_enable (sink_node sink)); simpl; [|done].
    by destruct (put _ _ env m) as [[m' env'] [[]|e]].
Qed.

Lemma node_ops_node_id n n' :
  rtc node_op n n' → node_id (n_config n') = node_id (n_config n).
Proof.
  induction 1 as [|n1 n2 n3 Hop Hops IH]; [done|].
  rewrite IH. by apply node_op_node_id.
Qed.

(** X10.  A node can always send on the medium it was built on.
    [Node.__init__] registers the node's own pipe there and nothing removes
    a pipe, so in every later state of the node and of the medium the pipe
    is still registered, and a send of the node, when it is listening,
    returns normally: the medium does not raise, the radio is locked, and
    the last thing scheduled is the re-enable process of the node, at the
    current time.  The radio is never left locked without its release. *)
Theorem send_on_own_medium_returns config m0 env0 env m self f :
  rtc step (env0, (Node_init config m0).2) (env, m) →
  rtc node_op (Node_init config m0).1 self →
  radio_rx_enable self = true →
  let id := node_id (n_config self) in
  let r := send self f env m in
  id = node_id config
  ∧ id ∈ (node_pipes m).*1
  ∧ r.2 = Ok tt
  ∧ radio_rx_enable r.1.1.1 = false
  ∧ r.1.2 = process (put f id env m).1.2 (ReenableRx id)
  ∧ last (queue r.1.2)
    = Some {| sch_time := now env; sch_seq := eid (put f id env m).1.2;
              sch_event := Initialize (ReenableRx id) |}.
Proof.
  intros Hrun Hops Hon id r.
  assert (Hid : id = node_id config).
  { subst id. by rewrite (node_ops_node_id _ _ Hops). }
  assert (Hpipe : id ∈ (node_pipes m).*1).
  { pose proof (run_pipes _ _ Hrun) as [rest Hrest]. simpl in Hrest.
    rewrite Hrest, Hid, fmap_app. set_solver. }
  assert (Hput : (put f id env m).2 = Ok tt).
  { unfold put. destruct (node_pipes m) as [|pipe pipes]; [by inversion Hpipe|].
    destruct (decide _); [done|]. by destruct (_propagating m). }
  assert (Hr : r = ({| n_config := n_config self;
                       flood_beacon_ids := flood_beacon_ids self;
                       flood_beacon_times := flood_beacon_times self;
                       local_tx_count := local_tx_count self + 1;
                       radio_rx_enable := false |},
                    (put f id env m).1.1,
                    process (put f id env m).1.2 (ReenableRx id), Ok tt)).
  { subst r. rewrite (send_listening _ _ _ _ Hon). fold id.
    destruct (put f id env m) as [[m' env'] [[]|e]]; simpl in *; done. }
  rewrite Hr. simpl. split_and!; try done.
  by rewrite last_snoc, put_now, Z.add_0_r.
Qed.

End RadioProperties.

(** * Properties of the registry *)

Section ManagerProperties.
Context {Obj : Type} `{EqDecision Obj} (obj_id : Obj → Z).

Abbreviation add_node := (manager.add_node obj_id).
Abbreviation remove_node := (manager.remove_node obj_id).
Abbreviation consistent := (manager.consistent obj_id).

Lemma NoDup_fmap_eq (l : list Obj) (x y : Obj) :
  NoDup (obj_id <$> l) → x ∈ l → y ∈ l → obj_id x = obj_id y → x = y.
Proof.
  induction l as [|z l IH]; intros Hnd Hx Hy Heq; [by apply elem_of_nil in Hx|].
  rewrite fmap_cons in Hnd. apply NoDup_cons in Hnd as [Hz Hnd].
  apply elem_of_cons in Hx as [-> | Hx]; apply elem_of_cons in Hy as [-> | Hy].
  - done.
  - exfalso. apply Hz. rewrite Heq. by apply list_elem_of_fmap_2.
  - exfalso. apply Hz. rewrite <- Heq. by apply list_elem_of_fmap_2.
  - by apply IH.
Qed.

Lemma list_remove_first_absent (x : Obj) (l : list Obj) :
  x ∉ l → manager.list_remove_first x l = l.
Proof.
  induction l as [|y l IH]; intros Habs; [done|].
  apply not_elem_of_cons in Habs as [Hne Habs]. simpl.
  rewrite decide_False by done. by rewrite IH.
Qed.

Lemma list_remove_first_app (x : Obj) (l : list Obj) :
  x ∉ l → manager.list_remove_first x (l ++ [x]) = l.
Proof.
  induction l as [|y l IH]; intros Habs; simpl.
  - by rewrite decide_True.
  - apply not_elem_of_cons in Habs as [Hne Habs].
    rewrite decide_False by done. by rewrite IH.
Qed.

Lemma list_remove_first_length (x : Obj) (l : list Obj) :
  x ∈ l → S (length (manager.list_remove_first x l)) = length l.
Proof.
  induction l as [|y l IH]; intros Hin; [by apply elem_of_nil in Hin|]. simpl.
  destruct (decide (y = x)) as [->|Hne]; [done|].
  apply elem_of_cons in Hin as [-> | Hin]; [done|]. simpl. by rewrite IH.
Qed.

Lemma list_remove_first_elem (x y : Obj) (l : list Obj) :
  NoDup l → (y ∈ manager.list_remove_first x l ↔ y ∈ l ∧ y ≠ x).
Proof.
  induction l as [|z l IH]; intros Hnd; simpl.
  - split; [by intros ?%elem_of_nil | by intros [?%elem_of_nil _]].
  - apply NoDup_cons in Hnd as [Hz Hnd].
    destruct (decide (z = x)) as [->|Hne].
    + split.
      * intros Hy. split; [by right | by intros ->].
      * intros [[-> | Hy]%elem_of_cons Hyx]; done.
    + rewrite !elem_of_cons, (IH Hnd). split.
      * intros [-> | [Hy Hyx]]; [split; [by left | done] | split; [by right | done]].
      * intros [[-> | Hy] Hyx]; [by left | by right].
Qed.

Lemma list_remove_first_NoDup (x : Obj) (l : list Obj) :
  NoDup (obj_id <$> l) → NoDup (obj_id <$> manager.list_remove_first x l).
Proof.
  induction l as [|z l IH]; intros Hnd; [done|]. simpl.
  rewrite fmap_cons in Hnd. apply NoDup_cons in Hnd as [Hz Hnd].
  destruct (decide (z = x)); [done|].
  rewrite fmap_cons. apply NoDup_cons. split; [|by apply IH].
  intros (y & Hy & Hin)%list_elem_of_fmap. apply Hz.
  apply list_elem_of_fmap. exists y. split; [done|].
  apply (list_remove_first_elem x y l) in Hin as [Hin _]; [done|].
  by apply (NoDup_fmap_1 obj_id).
Qed.

Lemma consistent_init : consistent manager.init.
Proof.
  split_and!; [done | constructor |].
  intros id node. simpl. rewrite lookup_empty.
  split; [done | by intros [?%elem_of_nil _]].
Qed.

Lemma consistent_add_node mgr node :
  consistent mgr → consistent (add_node mgr node).1.
Proof.
  intros (Hcount & Hnd & Hdict). unfold manager.add_node.
  destruct (manager._node_by_id mgr !! obj_id node) as [old|] eqn:Hlook;
    [done|]. simpl.
  assert (Hfresh : obj_id node ∉ obj_id <$> manager.nodes mgr).
  { intros (old & Hid & Hin)%list_elem_of_fmap.
    assert (manager._node_by_id mgr !! obj_id node = Some old) by (by apply Hdict).
    congruence. }
  split_and!; simpl.
  - done.
  - rewrite fmap_app. apply NoDup_app. split_and!; [done | | apply NoDup_singleton].
    intros x Hx ->%list_elem_of_singleton. done.
  - intros id n. rewrite elem_of_app, list_elem_of_singleton.
    destruct (decide (obj_id node = id)) as [<-|Hne].
    + rewrite lookup_insert_eq. split.
      * intros [= <-]. split; [by right | done].
      * intros [[Hin | ->] Hid]; [|done].
        exfalso. apply Hfresh. rewrite <- Hid. by apply list_elem_of_fmap_2.
    + rewrite lookup_insert_ne by done. rewrite Hdict. split.
      * intros [Hin Hid]. split; [by left | done].
      * intros [[Hin | ->] Hid]; done.
Qed.

Lemma consistent_remove_node mgr node :
  consistent mgr → consistent (remove_node mgr node).1.
Proof.
  intros (Hcount & Hnd & Hdict). unfold manager.remove_node.
  destruct (decide (node ∈ manager.nodes mgr)) as [Hin|Hout]; [|done].
  assert (Hlook : manager._node_by_id mgr !! obj_id node = Some node)
    by (by apply Hdict).
  rewrite Hlook. simpl.
  pose proof (NoDup_fmap_1 obj_id _ Hnd) as Hnd'.
  split_and!; simpl.
  - done.
  - by apply list_remove_first_NoDup.
  - intros id n. rewrite (list_remove_first_elem node n _ Hnd').
    destruct (decide (obj_id node = id)) as [<-|Hne].
    + rewrite lookup_delete_eq. split; [done|].
      intros [[Hn Hneq] Hid]. destruct Hneq.
      by apply (NoDup_fmap_eq (manager.nodes mgr)).
    + rewrite lookup_delete_ne by done. rewrite Hdict. split.
      * intros [Hn Hid]. split; [split; [done|] | done]. by intros ->.
      * by intros [[Hn _] Hid].
Qed.

(** X19.  The registry stays consistent: a new registry is, and [add_node]
    and [remove_node] keep it so, whether they return or raise.  In a
    consistent registry the count is the number of listed nodes, no two of
    them share an id, and the dictionary maps each listed node's id to that
    node and nothing else. *)
Theorem registry_stays_consistent mgr node :
  consistent mgr →
  consistent manager.init
  ∧ consistent (add_node mgr node).1
  ∧ consistent (remove_node mgr node).1.
Proof.
  intros Hok. split_and!;
    [apply consistent_init | by apply consistent_add_node
    | by apply consistent_remove_node].
Qed.

(** X20.  [add_node] raises exactly when the id of the node is already in
    the dictionary, and then leaves the registry as it was.  When it
    returns, the node is what [get_node] finds under its id, the other ids
    are looked up as before, and the count has grown by one if it was
    right before. *)
Theorem add_node_rejects_used_id mgr node :
  (is_raise (add_node mgr node).2 = true
   ↔ is_Some (manager._node_by_id mgr !! obj_id node))
  ∧ (is_raise (add_node mgr node).2 = true → (add_node mgr node).1 = mgr)
  ∧ (is_raise (add_node mgr node).2 = false →
     manager.get_node (add_node mgr node).1 (obj_id node) = Ok node
     ∧ (∀ id, id ≠ obj_id node →
          manager.get_node (add_node mgr node).1 id = manager.get_node mgr id)
     ∧ manager.nodes (add_node mgr node).1 = manager.nodes mgr ++ [node]
     ∧ (manager.node_count mgr = length (manager.nodes mgr) →
        manager.node_count (add_node mgr node).1 = S (manager.node_count mgr))).
Proof.
  unfold manager.add_node, manager.get_node.
  destruct (manager._node_by_id mgr !! obj_id node) as [old|] eqn:Hlook; simpl.
  - split_and!; [split; [by eexists | done] | done | done].
  - split_and!; [split; [done | by intros [? ?]] | done |].
    intros _. split_and!.
    + by rewrite lookup_insert_eq.
    + intros id Hne. by rewrite lookup_insert_ne.
    + done.
    + intros ->. rewrite length_app. simpl. lia.
Qed.

(** X21.  Adding a node whose id is free to a consistent registry and
    removing it again gives back the registry, list, dictionary and count. *)
Theorem add_then_remove_node mgr node :
  consistent mgr →
  manager._node_by_id mgr !! obj_id node = None →
  remove_node (add_node mgr node).1 node = (mgr, Ok tt).
Proof.
  intros (Hcount & Hnd & Hdict) Hfree.
  assert (Hout : node ∉ manager.nodes mgr).
  { intros Hin. assert (manager._node_by_id mgr !! obj_id node = Some node)
      by (by apply Hdict). congruence. }
  unfold manager.add_node. rewrite Hfree. simpl.
  unfold manager.remove_node. simpl.
  rewrite decide_True by (apply elem_of_app; right; left).
  rewrite lookup_insert_eq. unfold manager._update_node_count. simpl.
  rewrite (list_remove_first_app node _ Hout), delete_insert_id by done.
  destruct mgr as [l d c]. simpl in *. by subst c.
Qed.

(** X22.  In a consistent registry [remove_node] raises exactly when the
    node object is not listed, which includes another object that has the
    id of a listed node, and then leaves the registry as it was.  When it
    returns, the id of the node is free again, the count is one less, and
    the other ids are looked up as before. *)
Theorem remove_node_needs_listed_node mgr node :
  consistent mgr →
  (is_raise (remove_node mgr node).2 = true ↔ node ∉ manager.nodes mgr)
  ∧ (is_raise (remove_node mgr node).2 = true → (remove_node mgr node).1 = mgr)
  ∧ (is_raise (remove_node mgr node).2 = false →
     is_raise (manager.get_node (remove_node mgr node).1 (obj_id node)) = true
     ∧ S (manager.node_count (remove_node mgr node).1) = manager.node_count mgr
     ∧ ∀ id, id ≠ obj_id node →
         manager.get_node (remove_node mgr node).1 id = manager.get_node mgr id).
Proof.
  intros (Hcount & Hnd & Hdict). unfold manager.remove_node, manager.get_node.
  destruct (decide (node ∈ manager.nodes mgr)) as [Hin|Hout].
  - assert (Hlook : manager._node_by_id mgr !! obj_id node = Some node)
      by (by apply Hdict).
    rewrite Hlook. simpl. split_and!; [split; done | done |].
    intros _. split_and!.
    + by rewrite lookup_delete_eq.
    + rewrite Hcount. by apply list_remove_first_length.
    + intros id Hne. by rewrite lookup_delete_ne.
  - simpl. split_and!; [split; done | done | done].
Qed.

End ManagerProperties.

(** * Properties of the grid topology *)

Section TopologyProperties.
Context `{PyRandom} (default_txdistance : float).

Abbreviation grid_device' := (grid_device default_txdistance).
Abbreviation grid_devices' := (grid_devices default_txdistance).
Abbreviation add_cell' := (add_cell default_txdistance).
Abbreviation add_layer' := (add_layer default_txdistance).
Abbreviation add_layers' := (add_layers default_txdistance).
Abbreviation built_from' := (built_from default_txdistance).

(** ** The loops *)

Lemma grid_device_id max_tx guard debug_mode id hop c :
  device_id (grid_device' max_tx guard debug_mode id hop c) = id.
Proof. unfold grid_device. by destruct (_ && _). Qed.

Lemma grid_devices_app max_tx guard debug_mode order1 :
  ∀ id order2,
    grid_devices' max_tx guard debug_mode id (order1 ++ order2)
    = grid_devices' max_tx guard debug_mode id order1
      ++ grid_devices' max_tx guard debug_mode (id + Z.of_nat (length order1)) order2.
Proof.
  induction order1 as [|[hop c] rest IH]; intros id order2; simpl.
  - by rewrite Z.add_0_r.
  - rewrite IH. do 3 f_equal. lia.
Qed.

Lemma grid_devices_length max_tx guard debug_mode order :
  ∀ id, length (grid_devices' max_tx guard debug_mode id order) = length order.
Proof.
  induction order as [|[hop c] rest IH]; intros id; simpl; [done|]. by rewrite IH.
Qed.

Lemma built_from_nil max_tx guard debug_mode b :
  ids_free b → built_from' max_tx guard debug_mode b [] b.
Proof.
  intros Hfree. unfold built_from. simpl.
  rewrite Z.add_0_r, !app_nil_r. split_and!; done.
Qed.

Lemma built_from_app max_tx guard debug_mode b0 b1 b2 order1 order2 :
  built_from' max_tx guard debug_mode b0 order1 b1 →
  built_from' max_tx guard debug_mode b1 order2 b2 →
  built_from' max_tx guard debug_mode b0 (order1 ++ order2) b2.
Proof.
  intros (Hid1 & Hn1 & Hm1 & Hs1 & _ & Hc1) (Hid2 & Hn2 & Hm2 & Hs2 & Hf2 & Hc2).
  unfold built_from. rewrite length_app, Nat2Z.inj_add.
  rewrite grid_devices_app, fmap_app, concat_app.
  rewrite seqZ_app, foldl_app by lia.
  rewrite Hid2, Hn2, Hm2, Hs2, Hid1, Hn1, Hm1, Hs1.
  split_and!; try done; [lia | by rewrite app_assoc | by rewrite app_assoc | by auto].
Qed.

Lemma add_cell_built max_tx guard debug_mode hop c b :
  ids_free b →
  ∃ b', add_cell' max_tx guard debug_mode hop c b = (b', Ok tt)
        ∧ built_from' max_tx guard debug_mode b [(hop, c)] b'.
Proof.
  intros Hfree. unfold add_cell.
  set (config := grid_config default_txdistance (next_id b) c hop max_tx guard debug_mode).
  assert (Hdev : (if bool_decide (c.1 = 0) && bool_decide (c.2 = 0)
                  then (SinkDevice (Sink_init config (b_media b)).1.1,
                        (Sink_init config (b_media b)).1.2,
                        (Sink_init config (b_media b)).2)
                  else (SensorDevice (Sensor_init config (b_media b)).1.1,
                        (Sensor_init config (b_media b)).1.2,
                        (Sensor_init config (b_media b)).2))
                 = (grid_device' max_tx guard debug_mode (next_id b) hop c,
                    get_output_conn (b_media b) (next_id b),
                    started_by (grid_device' max_tx guard debug_mode (next_id b) hop c))).
  { unfold grid_device. by destruct (_ && _). }
  rewrite Hdev. simpl. clear Hdev.
  set (dev := grid_device' max_tx guard debug_mode (next_id b) hop c).
  assert (Hid : device_id dev = next_id b) by apply grid_device_id.
  pose proof (consistent_add_node device_id (b_network b) dev) as Hcons.
  unfold manager.add_node in *. rewrite Hid in *.
  rewrite (Hfree (next_id b)) in * by lia. simpl in *.
  eexists. split; [done|]. unfold built_from. simpl.
  rewrite app_nil_r. split_and!; try done.
  intros id Hge. simpl in *. rewrite lookup_insert_ne by lia. apply Hfree. lia.
Qed.

Lemma add_layer_built max_tx guard debug_mode hop cells :
  ∀ b, ids_free b →
  ∃ b', add_layer' max_tx guard debug_mode hop cells b = (b', Ok tt)
        ∧ built_from' max_tx guard debug_mode b ((λ c, (hop, c)) <$> cells) b'.
Proof.
  induction cells as [|c rest IH]; intros b Hfree; simpl.
  - exists b. split; [done | by apply built_from_nil].
  - destruct (add_cell_built max_tx guard debug_mode hop c b Hfree) as (b1 & -> & Hb1).
    destruct (IH b1) as (b2 & -> & Hb2); [by destruct Hb1 as (_ & _ & _ & _ & ? & _)|].
    exists b2. split; [done|].
    by apply (built_from_app _ _ _ b b1 b2 [(hop, c)]).
Qed.

Lemma add_layers_built max_tx guard debug_mode cells layers :
  (∀ hop, hop ∈ layers →
          hops_of cells !! hop = Some (filter (λ c, cell_hop c = hop) cells)) →
  ∀ b, ids_free b →
  ∃ b', add_layers' max_tx guard debug_mode (hops_of cells) layers b = (b', Added)
        ∧ built_from' max_tx guard debug_mode b (layered_cells cells layers) b'.
Proof.
  induction layers as [|hop rest IH]; intros Hlook b Hfree; simpl.
  - exists b. split; [done | by apply built_from_nil].
  - rewrite (Hlook hop) by left.
    destruct (add_layer_built max_tx guard debug_mode hop
                (sorted_cells (filter (λ c, cell_hop c = hop) cells)) b Hfree)
      as (b1 & -> & Hb1).
    destruct (IH (λ k Hk, Hlook k (list_elem_of_further _ _ _ Hk)) b1)
      as (b2 & -> & Hb2); [by destruct Hb1 as (_ & _ & _ & _ & ? & _)|].
    exists b2. split; [done|].
    unfold layered_cells. simpl.
    by apply (built_from_app _ _ _ b b1 b2).
Qed.

(** ** The cells *)

Lemma cells_elem (xs ys : list Z) (c : Z * Z) :
  c ∈ concat ((λ y, (λ x, (x, y)) <$> xs) <$> ys) ↔ c.1 ∈ xs ∧ c.2 ∈ ys.
Proof.
  induction ys as [|y ys IH]; simpl.
  - split; [by intros ?%elem_of_nil | by intros [_ ?%elem_of_nil]].
  - rewrite elem_of_app, IH, list_elem_of_fmap, elem_of_cons. split.
    + intros [(x & -> & Hx) | [Hx Hy]].
      * split; [done | by left].
      * split; [done | by right].
    + intros [Hx [Hy | Hy]].
      * left. exists c.1. split; [|done]. destruct c as [x y']. simpl in *. by subst.
      * by right.
Qed.

Lemma cells_NoDup (xs ys : list Z) :
  NoDup xs → NoDup ys → NoDup (concat ((λ y, (λ x, (x, y)) <$> xs) <$> ys)).
Proof.
  intros Hxs. induction 1 as [|y ys Hy Hys IH]; simpl; [constructor|].
  apply NoDup_app. split_and!; [|  |done].
  - assert (Hinj : Inj (=) (=) (λ x : Z, (x, y))) by (by intros x1 x2 [= ->]).
    by apply (NoDup_fmap_2 _).
  - intros c (x & -> & Hx)%list_elem_of_fmap [_ Hin]%cells_elem. done.
Qed.

Lemma cells_length (xs ys : list Z) :
  length (concat ((λ y, (λ x, (x, y)) <$> xs) <$> ys)) = (length ys * length xs)%nat.
Proof.
  induction ys as [|y ys IH]; [done|].
  rewrite fmap_cons, concat_cons, length_app, length_fmap, IH. simpl. lia.
Qed.

Lemma grid_cells_elem max_hops (c : Z * Z) :
  c ∈ grid_cells max_hops
  ↔ (- max_hops ≤ c.1 ≤ max_hops) ∧ (- max_hops ≤ c.2 ≤ max_hops).
Proof.
  unfold grid_cells, py_range. rewrite cells_elem, !elem_of_seqZ. lia.
Qed.

Lemma grid_cells_NoDup max_hops : NoDup (grid_cells max_hops).
Proof. apply cells_NoDup; apply NoDup_seqZ. Qed.

Lemma grid_cells_length max_hops :
  0 ≤ max_hops →
  Z.of_nat (length (grid_cells max_hops)) = (2 * max_hops + 1) * (2 * max_hops + 1).
Proof.
  intros Hh. unfold grid_cells, py_range.
  rewrite cells_length, length_seqZ. lia.
Qed.

Lemma grid_cells_hop max_hops (c : Z * Z) :
  c ∈ grid_cells max_hops → 0 ≤ cell_hop c ≤ max_hops.
Proof. rewrite grid_cells_elem. unfold cell_hop. lia. Qed.

(** ** The dictionary of layers *)

Lemma hops_fold_lookup (cells : list (Z * Z)) :
  ∀ (hops : gmap Z (list (Z * Z))) (k : Z),
    foldl (λ hops c, <[cell_hop c := default [] (hops !! cell_hop c) ++ [c]]> hops)
          hops cells !! k
    = match filter (λ c, cell_hop c = k) cells with
      | [] => hops !! k
      | layer => Some (default [] (hops !! k) ++ layer)
      end.
Proof.
  induction cells as [|c rest IH]; intros hops k; [done|].
  simpl. rewrite IH. rewrite filter_cons.
  destruct (decide (cell_hop c = k)) as [<-|Hne].
  - rewrite lookup_insert_eq. simpl.
    destruct (filter _ rest); [done|]. by rewrite <- app_assoc.
  - by rewrite lookup_insert_ne.
Qed.

Lemma hops_of_lookup (cells : list (Z * Z)) (c : Z * Z) :
  c ∈ cells →
  hops_of cells !! cell_hop c = Some (filter (λ c', cell_hop c' = cell_hop c) cells).
Proof.
  intros Hin. unfold hops_of. rewrite hops_fold_lookup, lookup_empty.
  destruct (filter _ cells) as [|c0 layer] eqn:Hlayer; [|done].
  assert (Hc : c ∈ filter (λ c', cell_hop c' = cell_hop c) cells)
    by (by apply list_elem_of_filter).
  rewrite Hlayer in Hc. by apply elem_of_nil in Hc.
Qed.

Lemma hops_of_grid max_hops hop :
  hop ∈ py_range 0 (max_hops + 1) →
  hops_of (grid_cells max_hops) !! hop
  = Some (filter (λ c, cell_hop c = hop) (grid_cells max_hops)).
Proof.
  unfold py_range. rewrite elem_of_seqZ. intros Hhop.
  assert (Hcell : cell_hop (hop, hop) = hop) by (unfold cell_hop; simpl; lia).
  pose proof (hops_of_lookup (grid_cells max_hops) (hop, hop)) as Hlook.
  rewrite Hcell in Hlook. apply Hlook.
  apply grid_cells_elem. simpl. lia.
Qed.

(** ** The order of creation *)

Lemma filter_all {A} (P : A → Prop) `{∀ x, Decision (P x)} (l : list A) :
  (∀ x, x ∈ l → P x) → filter P l = l.
Proof.
  induction l as [|x l IH]; intros Hall; [done|].
  rewrite filter_cons, decide_True by (apply Hall; left).
  rewrite IH; [done|]. intros y Hy. apply Hall. by right.
Qed.

Lemma filter_none {A} (P : A → Prop) `{∀ x, Decision (P x)} (l : list A) :
  (∀ x, x ∈ l → ¬ P x) → filter P l = [].
Proof.
  induction l as [|x l IH]; intros Hnone; [done|].
  rewrite filter_cons, decide_False by (apply Hnone; left).
  apply IH. intros y Hy. apply Hnone. by right.
Qed.

Lemma filter_either {A} (P Q : A → Prop)
    `{∀ x, Decision (P x)} `{∀ x, Decision (Q x)} (l : list A) :
  (∀ x, P x → Q x → False) →
  filter P l ++ filter Q l ≡ₚ filter (λ x, P x ∨ Q x) l.
Proof.
  intros Hexcl. induction l as [|x l IH]; [done|].
  rewrite !filter_cons.
  destruct (decide (P x)) as [HP|HP]; destruct (decide (Q x)) as [HQ|HQ].
  - by destruct (Hexcl x).
  - rewrite decide_True by (by left). simpl. by rewrite IH.
  - rewrite decide_True by (by right). rewrite <- Permutation_middle. by rewrite IH.
  - rewrite decide_False by (by intros [|]). done.
Qed.

Lemma layered_cells_cons cells hop layers :
  layered_cells cells (hop :: layers)
  = ((λ c, (hop, c)) <$> sorted_cells (filter (λ c, cell_hop c = hop) cells))
    ++ layered_cells cells layers.
Proof. done. Qed.

Lemma layered_cells_positions cells layers :
  NoDup layers →
  (layered_cells cells layers).*2 ≡ₚ filter (λ c, cell_hop c ∈ layers) cells.
Proof.
  induction 1 as [|hop layers Hhop Hnd IH].
  - simpl. rewrite filter_none; [done|]. intros c _ Hin. by apply elem_of_nil in Hin.
  - rewrite layered_cells_cons, fmap_app, IH.
    assert (Hsnd : ((λ c, (hop, c)) <$> sorted_cells (filter (λ c, cell_hop c = hop) cells)).*2
                   = sorted_cells (filter (λ c, cell_hop c = hop) cells)).
    { generalize (sorted_cells (filter (λ c, cell_hop c = hop) cells)).
      intros l. induction l as [|c l IHl]; simpl; [done | by f_equal]. }
    rewrite Hsnd. unfold sorted_cells. rewrite merge_sort_Permutation.
    rewrite filter_either by (intros c -> Hin; done).
    apply Permutation_refl'. apply list_filter_iff.
    intros c. rewrite elem_of_cons. done.
Qed.

Lemma layered_cells_elem cells layers hop c :
  (hop, c) ∈ layered_cells cells layers
  ↔ hop ∈ layers ∧ c ∈ cells ∧ cell_hop c = hop.
Proof.
  induction layers as [|k layers IH].
  - simpl. split; [by intros ?%elem_of_nil | by intros [?%elem_of_nil _]].
  - rewrite layered_cells_cons, elem_of_app, IH, list_elem_of_fmap, elem_of_cons.
    unfold sorted_cells. split.
    + intros [(c' & [= -> ->] & Hin) | (Hk & Hc & Hhop)].
      * rewrite merge_sort_Permutation in Hin.
        apply list_elem_of_filter in Hin as [Hhop Hin]. split_and!; [by left | done..].
      * split_and!; [by right | done..].
    + intros ([-> | Hk] & Hc & Hhop); [left | by right].
      exists c. split; [done|]. rewrite merge_sort_Permutation.
      by apply list_elem_of_filter.
Qed.

Lemma layered_cells_sorted cells layers :
  StronglySorted Z.le layers →
  StronglySorted Z.le (layered_cells cells layers).*1.
Proof.
  induction 1 as [|hop layers Hsorted IH Hall].
  - constructor.
  - rewrite layered_cells_cons, fmap_app. apply StronglySorted_app_2; [| |done].
    + intros k1 k2 ([k c] & -> & (c' & [= -> ->] & _)%list_elem_of_fmap)%list_elem_of_fmap
                    ([k' c''] & -> & Hin)%list_elem_of_fmap. simpl.
      apply layered_cells_elem in Hin as (Hk & _).
      rewrite Forall_forall in Hall. by apply Hall.
    + rewrite <- list_fmap_compose. simpl.
      generalize (sorted_cells (filter (λ c, cell_hop c = hop) cells)).
      intros l. induction l as [|c l IHl]; simpl; constructor; [done|].
      apply Forall_forall. intros k (c' & -> & _)%list_elem_of_fmap. simpl. lia.
Qed.

Lemma seqZ_sorted m n : StronglySorted Z.le (seqZ m n).
Proof.
  destruct (decide (0 ≤ n)) as [Hn|Hn]; [|rewrite seqZ_nil by lia; constructor].
  rewrite <- (Z2Nat.id n) by done. generalize (Z.to_nat n). clear. intros k.
  induction k as [|k IH]; [rewrite seqZ_nil by lia; constructor|].
  rewrite seqZ_S. apply StronglySorted_app_2; [|done|repeat constructor].
  intros x1 x2 Hx1%elem_of_seqZ ->%list_elem_of_singleton. lia.
Qed.

Lemma StronglySorted_lookup_le (l : list Z) (i j : nat) (x y : Z) :
  StronglySorted Z.le l → l !! i = Some x → l !! j = Some y → (i ≤ j)%nat → x ≤ y.
Proof.
  intros Hsorted. revert i j. induction Hsorted as [|z l Hsorted IH Hall];
    intros i j Hi Hj Hij; [done|].
  destruct i as [|i]; destruct j as [|j]; simpl in *; simplify_eq; try lia.
  - rewrite Forall_forall in Hall. apply Hall. by apply list_elem_of_lookup_2 in Hj.
  - apply (IH i j); [done..|lia].
Qed.

(** ** The node objects *)

Lemma grid_devices_lookup max_tx guard debug_mode order :
  ∀ id (i : nat),
    grid_devices' max_tx guard debug_mode id order !! i
    = (λ hc, grid_device' max_tx guard debug_mode (id + Z.of_nat i) hc.1 hc.2)
        <$> order !! i.
Proof.
  induction order as [|[hop c] rest IH]; intros id i; [done|].
  destruct i as [|i]; simpl.
  - by rewrite Z.add_0_r.
  - rewrite IH. destruct (rest !! i); simpl; [|done]. do 2 f_equal. lia.
Qed.

Lemma grid_devices_ids max_tx guard debug_mode order :
  ∀ id, device_id <$> grid_devices' max_tx guard debug_mode id order
        = seqZ id (Z.of_nat (length order)).
Proof.
  induction order as [|[hop c] rest IH]; intros id; [done|].
  simpl length. rewrite Nat2Z.inj_succ, seqZ_cons by lia. simpl.
  rewrite grid_device_id, IH. do 2 f_equal; lia.
Qed.

Lemma grid_devices_positions max_tx guard debug_mode order :
  ∀ id, (λ d, node_pos (n_config (device_node d)))
          <$> grid_devices' max_tx guard debug_mode id order
        = order.*2.
Proof.
  induction order as [|[hop [x y]] rest IH]; intros id; [done|].
  simpl. rewrite IH. f_equal. unfold grid_device. by destruct (_ && _).
Qed.

Lemma grid_devices_hops max_tx guard debug_mode order :
  ∀ id, (λ d, node_hop (n_config (device_node d)))
          <$> grid_devices' max_tx guard debug_mode id order
        = order.*1.
Proof.
  induction order as [|[hop c] rest IH]; intros id; [done|].
  simpl. rewrite IH. f_equal. unfold grid_device. by destruct (_ && _).
Qed.

Lemma connect_all_pipes ids :
  ∀ m, node_pipes (foldl get_output_conn m ids)
       = node_pipes m ++ ((λ id, (id, [])) <$> ids).
Proof.
  induction ids as [|id ids IH]; intros m; simpl; [by rewrite app_nil_r|].
  rewrite IH. simpl. by rewrite <- app_assoc.
Qed.

(** [add_nodes] on a new registry ends normally, whatever [max_hops] is. *)
Lemma add_nodes_built media max_tx max_hops guard debug_mode :
  ∃ b, add_nodes default_txdistance manager.init media max_tx max_hops guard debug_mode
       = (b, Added)
       ∧ built_from' max_tx guard debug_mode
           {| next_id := 1; b_media := media; b_network := manager.init;
              b_started := [] |}
           (layered_cells (grid_cells max_hops) (py_range 0 (max_hops + 1))) b.
Proof.
  unfold add_nodes. apply add_layers_built.
  - intros hop Hhop. by apply hops_of_grid.
  - intros id _. simpl. apply lookup_empty.
Qed.

(** X23.  On a new registry [add_nodes] never fails, for any [max_hops]:
    neither the lookup of a layer nor the registry raises.  The registry it
    leaves is consistent, the node ids are 1, 2, 3, ... in the order of
    creation, every node has registered one empty pipe with the medium, in
    the same order and after the pipes that were there, and the processes
    started are those of the nodes, in the same order. *)
Theorem add_nodes_registers_every_node media max_tx max_hops guard debug_mode :
  let r := add_nodes default_txdistance manager.init media max_tx max_hops guard
             debug_mode in
  let nodes := manager.nodes (b_network r.1) in
  r.2 = Added
  ∧ manager.consistent device_id (b_network r.1)
  ∧ device_id <$> nodes = seqZ 1 (Z.of_nat (length nodes))
  ∧ node_pipes (b_media r.1)
    = node_pipes media ++ ((λ id, (id, [])) <$> (device_id <$> nodes))
  ∧ b_started r.1 = concat (started_by <$> nodes)
  ∧ next_id r.1 = 1 + Z.of_nat (length nodes).
Proof.
  intros r nodes. subst nodes r.
  destruct (add_nodes_built media max_tx max_hops guard debug_mode)
    as (b & -> & Hid & Hnodes & Hmedia & Hstarted & _ & Hcons).
  simpl in *. rewrite Hnodes, Hmedia, Hstarted, Hid.
  rewrite grid_devices_ids, grid_devices_length, connect_all_pipes.
  split_and!; try done. apply Hcons, consistent_init.
Qed.

Lemma add_nodes_nodes media max_tx max_hops guard debug_mode :
  manager.nodes
    (b_network (add_nodes default_txdistance manager.init media max_tx max_hops
                  guard debug_mode).1)
  = grid_devices' max_tx guard debug_mode 1
      (layered_cells (grid_cells max_hops) (py_range 0 (max_hops + 1))).
Proof.
  destruct (add_nodes_built media max_tx max_hops guard debug_mode)
    as (b & -> & _ & Hnodes & _). simpl in *. by rewrite Hnodes.
Qed.

Lemma grid_order_positions max_hops :
  (layered_cells (grid_cells max_hops) (py_range 0 (max_hops + 1))).*2
  ≡ₚ grid_cells max_hops.
Proof.
  rewrite layered_cells_positions by apply NoDup_seqZ.
  rewrite filter_all; [done|].
  intros c Hc%grid_cells_hop. unfold py_range. apply elem_of_seqZ. lia.
Qed.

(** X24.  The nodes [add_nodes] creates occupy the cells of the grid, one
    node per cell: their positions are the cells [(x, y)] with
    [-max_hops <= x, y <= max_hops] in some order, without repetition, so
    there are [(2 * max_hops + 1) ** 2] of them. *)
Theorem grid_is_covered media max_tx max_hops guard debug_mode :
  0 ≤ max_hops →
  let nodes := manager.nodes
                 (b_network (add_nodes default_txdistance manager.init media max_tx
                               max_hops guard debug_mode).1) in
  let positions := (λ d, node_pos (n_config (device_node d))) <$> nodes in
  Z.of_nat (length nodes) = (2 * max_hops + 1) * (2 * max_hops + 1)
  ∧ positions ≡ₚ grid_cells max_hops
  ∧ NoDup positions
  ∧ ∀ x y, (- max_hops ≤ x ≤ max_hops) → (- max_hops ≤ y ≤ max_hops) →
           (x, y) ∈ positions.
Proof.
  intros Hh nodes positions. subst positions nodes.
  rewrite add_nodes_nodes, grid_devices_positions.
  pose proof (grid_order_positions max_hops) as Hperm.
  split_and!.
  - rewrite grid_devices_length, <- (length_fmap snd), Hperm.
    by apply grid_cells_length.
  - done.
  - rewrite Hperm. apply grid_cells_NoDup.
  - intros x y Hx Hy. rewrite Hperm. by apply grid_cells_elem.
Qed.

(** X25.  Every node [add_nodes] creates has as [node_hop] the Chebyshev
    distance [max(|x|, |y|)] of its position from the origin, at most
    [max_hops]; it carries the [max_transmissions] and [guard_time] given,
    channel 7 and the default range; it listens, has sent nothing and seen
    no flood.  It is a [Sink] (with sequence number [-1]) exactly when it
    is at the origin. *)
Theorem grid_node_is_configured media max_tx max_hops guard debug_mode d :
  d ∈ manager.nodes
        (b_network (add_nodes default_txdistance manager.init media max_tx max_hops
                      guard debug_mode).1) →
  let cfg := n_config (device_node d) in
  node_hop cfg = cell_hop (node_pos cfg)
  ∧ 0 ≤ node_hop cfg ≤ max_hops
  ∧ max_transmissions cfg = max_tx
  ∧ guard_time cfg = guard
  ∧ radio_channel cfg = 7
  ∧ radio_txdistance cfg = default_txdistance
  ∧ radio_rx_enable (device_node d) = true
  ∧ local_tx_count (device_node d) = 0
  ∧ flood_beacon_ids (device_node d) = ∅
  ∧ ((∃ s, d = SinkDevice s ∧ msg_seq s = -1) ↔ node_pos cfg = (0, 0))
  ∧ ((∃ n, d = SensorDevice n) ↔ node_pos cfg ≠ (0, 0)).
Proof.
  rewrite add_nodes_nodes. intros (i & Hi)%list_elem_of_lookup_1.
  rewrite grid_devices_lookup in Hi.
  destruct (layered_cells _ _ !! i) as [[hop [x y]]|] eqn:Horder; [|done].
  apply list_elem_of_lookup_2, layered_cells_elem in Horder as (Hhop & Hc & Hhopc).
  apply grid_cells_hop in Hc. simpl in Hi. injection Hi as <-.
  unfold grid_device. simpl.
  destruct (decide (x = 0)) as [->|Hx]; destruct (decide (y = 0)) as [->|Hy].
  all: rewrite ?(bool_decide_eq_true_2 (0 = 0)) by done.
  all: rewrite ?(bool_decide_eq_false_2 (x = 0)) by done.
  all: rewrite ?(bool_decide_eq_false_2 (y = 0)) by done.
  all: rewrite ?andb_false_r; simpl.
  all: unfold node_pos; simpl; split_and!; try done; try lia.
  all: try (split; [by intros (? & ? & _) | intros [=]; done]).
  all: try (split; [intros _; by intros [=] | intros _; by eexists]).
  - split; [done | intros _; by eexists].
  - split; [by intros [? ?] | done].
Qed.

Lemma only_element {A} (l : list A) (a : A) :
  NoDup l → a ∈ l → (∀ x, x ∈ l → x = a) → l = [a].
Proof.
  intros Hnd Hin Hall. destruct l as [|x [|y l]].
  - by apply elem_of_nil in Hin.
  - f_equal. apply Hall. left.
  - exfalso. apply NoDup_cons in Hnd as [Hx _]. apply Hx.
    rewrite (Hall x) by left. rewrite (Hall y) by (right; left). left.
Qed.

Lemma grid_order_head max_hops :
  0 ≤ max_hops →
  ∃ rest, layered_cells (grid_cells max_hops) (py_range 0 (max_hops + 1))
          = (0, (0, 0)) :: rest.
Proof.
  intros Hh. unfold py_range. rewrite seqZ_cons by lia. rewrite layered_cells_cons.
  assert (Hlayer : filter (λ c, cell_hop c = 0) (grid_cells max_hops) = [(0, 0)]).
  { apply only_element.
    - apply NoDup_filter, grid_cells_NoDup.
    - apply list_elem_of_filter. split; [done|]. apply grid_cells_elem. simpl. lia.
    - intros [x y] [Hhop _]%list_elem_of_filter. unfold cell_hop in Hhop. simpl in Hhop.
      f_equal; lia. }
  rewrite Hlayer.
  assert (Hsorted : sorted_cells [(0, 0)] = [(0, 0)]).
  { apply Permutation_singleton_r. unfold sorted_cells. apply merge_sort_Permutation. }
  rewrite Hsorted. simpl. by eexists.
Qed.

(** X26.  For [max_hops >= 0] the first node [add_nodes] creates is the
    sink: it has node id 1, lies at the origin in layer 0 and has sequence
    number [-1]; and no other node is a [Sink]. *)
Theorem sink_is_node_one media max_tx max_hops guard debug_mode :
  0 ≤ max_hops →
  let nodes := manager.nodes
                 (b_network (add_nodes default_txdistance manager.init media max_tx
                               max_hops guard debug_mode).1) in
  (∃ s, nodes !! 0%nat = Some (SinkDevice s)
        ∧ node_id (n_config (sink_node s)) = 1
        ∧ node_pos (n_config (sink_node s)) = (0, 0)
        ∧ node_hop (n_config (sink_node s)) = 0
        ∧ msg_seq s = -1)
  ∧ ∀ (i : nat) s, nodes !! i = Some (SinkDevice s) → i = 0%nat.
Proof.
  intros Hh nodes. subst nodes. rewrite add_nodes_nodes.
  destruct (grid_order_head max_hops Hh) as [rest Horder].
  split.
  - rewrite Horder. simpl. unfold grid_device. simpl. by eexists.
  - intros i s Hi. rewrite grid_devices_lookup in Hi.
    destruct (layered_cells _ _ !! i) as [[hop [x y]]|] eqn:Hcell; [|done].
    simpl in Hi. unfold grid_device in Hi. simpl in Hi.
    destruct (bool_decide (x = 0)) eqn:Hx; [|done].
    destruct (bool_decide (y = 0)) eqn:Hy; [|done].
    apply bool_decide_eq_true in Hx as ->. apply bool_decide_eq_true in Hy as ->.
    assert (Hnd : NoDup (layered_cells (grid_cells max_hops)
                           (py_range 0 (max_hops + 1))).*2).
    { rewrite grid_order_positions. apply grid_cells_NoDup. }
    apply (NoDup_lookup _ i 0%nat (0, 0) Hnd).
    + by rewrite list_lookup_fmap, Hcell.
    + by rewrite Horder.
Qed.

(** X27.  Node ids grow with the distance from the sink: of two nodes
    [add_nodes] creates, the one in the lower layer has the smaller id. *)
Theorem ids_grow_with_hop media max_tx max_hops guard debug_mode d1 d2 :
  let nodes := manager.nodes
                 (b_network (add_nodes default_txdistance manager.init media max_tx
                               max_hops guard debug_mode).1) in
  d1 ∈ nodes → d2 ∈ nodes →
  node_hop (n_config (device_node d1)) < node_hop (n_config (device_node d2)) →
  device_id d1 < device_id d2.
Proof.
  intros nodes. subst nodes. rewrite add_nodes_nodes.
  set (order := layered_cells (grid_cells max_hops) (py_range 0 (max_hops + 1))).
  intros (i & Hi)%list_elem_of_lookup_1 (j & Hj)%list_elem_of_lookup_1 Hhop.
  assert (Hsorted : StronglySorted Z.le order.*1)
    by apply layered_cells_sorted, seqZ_sorted.
  assert (Hhops : ∀ k d, grid_devices' max_tx guard debug_mode 1 order !! k = Some d →
            order.*1 !! k = Some (node_hop (n_config (device_node d)))
            ∧ device_id d = 1 + Z.of_nat k).
  { intros k d Hk. rewrite grid_devices_lookup in Hk.
    rewrite list_lookup_fmap. destruct (order !! k) as [[hop c]|]; [|done].
    simpl in *. injection Hk as <-. rewrite grid_device_id.
    unfold grid_device. by destruct (_ && _). }
  destruct (Hhops i d1 Hi) as [Hi1 ->]. destruct (Hhops j d2 Hj) as [Hj1 ->].
  destruct (decide (i < j)%nat) as [Hlt|Hge]; [lia|].
  pose proof (StronglySorted_lookup_le _ j i _ _ Hsorted Hj1 Hi1). lia.
Qed.

(** ** Resolution in the grid *)

Lemma connect_all_pending ids :
  ∀ m, _pending (foldl get_output_conn m ids) = _pending m
       ∧ _last_tx_time (foldl get_output_conn m ids) = _last_tx_time m
       ∧ _propagating (foldl get_output_conn m ids) = _propagating m.
Proof.
  induction ids as [|id ids IH]; intros m; simpl; [done|].
  by destruct (IH (get_output_conn m id)) as (-> & -> & ->).
Qed.

(** The pipes of the medium [add_nodes] has filled belong to registered
    nodes. *)
Lemma grid_pipes_registered cfg max_tx max_hops guard debug_mode id :
  let b := (add_nodes default_txdistance manager.init (Media_init cfg) max_tx
              max_hops guard debug_mode).1 in
  id ∈ (node_pipes (b_media b)).*1 →
  is_Some (manager._node_by_id (b_network b) !! id).
Proof.
  intros b. subst b.
  destruct (add_nodes_built (Media_init cfg) max_tx max_hops guard debug_mode)
    as (b & -> & _ & Hnodes & Hmedia & _ & _ & Hcons).
  simpl in *. rewrite Hmedia, connect_all_pipes. simpl.
  rewrite <- list_fmap_compose.
  rewrite list_fmap_id.
  rewrite <- grid_devices_ids with (max_tx := max_tx) (guard := guard)
                                   (debug_mode := debug_mode).
  rewrite <- Hnodes. intros (d & -> & Hd)%list_elem_of_fmap.
  destruct (Hcons (consistent_init device_id)) as (_ & _ & Hdict).
  exists d. by apply Hdict.
Qed.

(** X28.  In the world [add_nodes] sets up on a new registry and a new
    medium, a resolution never raises: every pipe of the medium belongs to a
    node of the registry, so for any batch whose senders are registered
    [_propagate] returns, whatever the draws. *)
Theorem grid_resolution_never_raises cfg max_tx max_hops guard debug_mode m g :
  let b := (add_nodes default_txdistance manager.init (Media_init cfg) max_tx
              max_hops guard debug_mode).1 in
  let network := device_node <$> manager._node_by_id (b_network b) in
  (node_pipes m).*1 = (node_pipes (b_media b)).*1 →
  (∀ tx, tx ∈ _pending m →
         is_Some (manager._node_by_id (b_network b) !! sender_id tx)) →
  (_propagate network m g).2 = Ok tt.
Proof.
  intros b network Hpipes Hsenders. apply _propagate_returns.
  - intros tx Htx. subst network. rewrite lookup_fmap.
    destruct (Hsenders tx Htx) as [d ->]. by eexists.
  - intros pipe Hpipe. subst network. rewrite lookup_fmap.
    destruct (grid_pipes_registered cfg max_tx max_hops guard debug_mode pipe.1)
      as [d Hd].
    + fold b. rewrite <- Hpipes. by apply list_elem_of_fmap_2.
    + fold b in Hd. rewrite Hd. by eexists.
Qed.

End TopologyProperties.

(** * The properties on sample runs *)

Section Runs.
#[local] Existing Instance RealFloat.
#[local] Existing Instance StreamRandom.

Lemma real_lt_true (x y : R) : (x < y)%R → real_lt x y = true.
Proof. intros Hlt. unfold real_lt. by destruct (Rlt_dec x y). Qed.

Lemma real_lt_false (x y : R) : (y <= x)%R → real_lt x y = false.
Proof. intros Hle. unfold real_lt. destruct (Rlt_dec x y); [lra | done]. Qed.

Lemma neighbour_in_range (id x y hop : Z) (receiver : Node) :
  (x - node_posx (n_config receiver)) * (x - node_posx (n_config receiver))
  + (y - node_posy (n_config receiver)) * (y - node_posy (n_config receiver)) = 1 →
  _in_range (sample_node id x y hop) receiver = true.
Proof.
  intros Hone. unfold _in_range. simpl. unfold real_dist. simpl.
  rewrite Hone, sqrt_1, real_lt_false; [done | lra].
Qed.

Lemma distant_out_of_range (id x y hop : Z) (receiver : Node) :
  (x - node_posx (n_config receiver)) * (x - node_posx (n_config receiver))
  + (y - node_posy (n_config receiver)) * (y - node_posy (n_config receiver)) = 9 →
  float_lt (radio_txdistance (sample_node_config id x y hop))
           (math_dist (node_pos (sample_node_config id x y hop))
                      (node_pos (n_config receiver))) = true.
Proof.
  intros Hnine. simpl. unfold real_dist. simpl. rewrite Hnine.
  replace (IZR 9) with (3 * 3)%R by lra.
  rewrite sqrt_square by lra. apply real_lt_true. lra.
Qed.

Lemma sample_candidates :
  rx_candidates sample_network (sample_node 1 0 0 0)
    [sample_tx "f1" 2; sample_tx "f1" 3]
  = Ok [sample_tx "f1" 2; sample_tx "f1" 3].
Proof.
  simpl. unfold get_node.
  replace (sample_network !! 2) with (Some (sample_node 2 1 0 1)) by reflexivity.
  replace (sample_network !! 3) with (Some (sample_node 3 (-1) 0 1)) by reflexivity.
  by rewrite !neighbour_in_range.
Qed.

Lemma sample_candidates_distinct :
  rx_candidates sample_network (sample_node 1 0 0 0)
    [sample_tx "f1" 2; sample_tx "f2" 3]
  = Ok [sample_tx "f1" 2; sample_tx "f2" 3].
Proof.
  simpl. unfold get_node.
  replace (sample_network !! 2) with (Some (sample_node 2 1 0 1)) by reflexivity.
  replace (sample_network !! 3) with (Some (sample_node 3 (-1) 0 1)) by reflexivity.
  by rewrite !neighbour_in_range.
Qed.

Lemma sample_relayed_pending :
  _pending sample_relayed = [sample_tx "f1" 2; sample_tx "f1" 3].
Proof. reflexivity. Qed.

Lemma sample_relayed_pipes :
  node_pipes sample_relayed = [(1, []); (2, []); (3, [])].
Proof. reflexivity. Qed.

Lemma sample_relayed_returns g :
  (_propagate sample_network sample_relayed g).2 = Ok tt.
Proof.
  apply _propagate_returns.
  - rewrite sample_relayed_pending.
    intros tx [-> | ->%list_elem_of_singleton]%elem_of_cons; by eexists.
  - rewrite sample_relayed_pipes.
    intros pipe [-> | [-> | ->%list_elem_of_singleton]%elem_of_cons]%elem_of_cons;
      by eexists.
Qed.

(** Nodes 2 and 3 send the same beacon; node 1, whose pipe is the first,
    hears both. *)
Lemma constructive_interference_law_witness :
  let txs := [sample_tx "f1" 2; sample_tx "f1" 3] in
  let effective_loss := float_pow (6 / 10)%R (math_log2 3) in
  (∀ g0, _loss_handler sample_cfg txs 1 g0 =
           (if float_lt (random g0).1 effective_loss then []
            else [sample_tx "f1" 2], (random g0).2))
  ∧ (∀ store g0,
       propagate_receiver sample_cfg sample_network txs (sender_ids_of txs)
         (1, store) g0 =
       ((1, if float_lt (random g0).1 effective_loss then store
            else store ++ [sample_beacon "f1"]),
        (random g0).2, Ok tt))
  ∧ ∃ n, (n ≤ 0)%nat
         ∧ node_pipes (_propagate sample_network sample_relayed sample_rng).1.1 !! 0%nat =
           Some (1, if float_lt (random (draws n sample_rng)).1 effective_loss then []
                    else [] ++ [sample_beacon "f1"]).
Proof.
  intros txs effective_loss.
  destruct (constructive_interference_law sample_network sample_relayed
              1 (sample_node 1 0 0 0) (sample_tx "f1" 2) [sample_tx "f1" 3])
    as (Hloss & Hbody & Hpipe).
  - reflexivity.
  - simpl. lia.
  - intros t1 t2 [-> | ->%list_elem_of_singleton]%elem_of_cons
                 [-> | ->%list_elem_of_singleton]%elem_of_cons; reflexivity.
  - rewrite sample_relayed_pending. unfold sender_ids_of.
    rewrite elem_of_list_to_set. simpl.
    intros [[=] | [=]%list_elem_of_singleton]%elem_of_cons.
  - reflexivity.
  - rewrite sample_relayed_pending. exact sample_candidates.
  - split_and!.
    + exact Hloss.
    + exact Hbody.
    + apply (Hpipe sample_rng 0%nat []); [reflexivity|].
      apply sample_relayed_returns.
Defined.

(** Nodes 2 and 3 send different beacons; node 1 hears both. *)
Lemma destructive_collision_witness :
  let txs := [sample_tx "f1" 2; sample_tx "f2" 3] in
  let g := sample_rng in
  _loss_handler sample_cfg txs 1 g = ([], g)
  ∧ propagate_receiver sample_cfg sample_network txs (sender_ids_of txs) (1, []) g =
    ((1, []), g, Ok tt).
Proof.
  destruct (destructive_collision sample_cfg sample_network
              [sample_tx "f1" 2; sample_tx "f2" 3]
              (sender_ids_of [sample_tx "f1" 2; sample_tx "f2" 3])
              1 [] (sample_node 1 0 0 0)
              [sample_tx "f1" 2; sample_tx "f2" 3] sample_rng)
    as [Hloss Hstore].
  - simpl. lia.
  - right. exists (sample_tx "f1" 2), (sample_tx "f2" 3).
    split; [left|]. split; [right; left|]. intros [=].
  - split; [exact Hloss|]. apply Hstore.
    + unfold sender_ids_of. rewrite elem_of_list_to_set. simpl.
      intros [[=] | [=]%list_elem_of_singleton]%elem_of_cons.
    + reflexivity.
    + exact sample_candidates_distinct.
Defined.

Lemma sample_sent_pending ids :
  ids ≠ [] → _pending (sample_sent ids) = [sample_tx "f1" 1].
Proof.
  intros Hne. unfold sample_sent, put.
  assert (Hpipes : node_pipes (sample_media ids) ≠ []).
  { unfold sample_media. destruct ids as [|id ids] using rev_ind; [done|].
    rewrite foldl_app. simpl. by destruct (node_pipes _). }
  assert (Hlast : _last_tx_time (sample_media ids) = ∅).
  { unfold sample_media. clear. induction ids as [|id ids IH] using rev_ind; [done|].
    by rewrite foldl_app. }
  assert (Hpend : _pending (sample_media ids) = []).
  { unfold sample_media. clear. induction ids as [|id ids IH] using rev_ind; [done|].
    by rewrite foldl_app. }
  destruct (node_pipes (sample_media ids)); [done|].
  rewrite Hlast, lookup_empty, decide_False by done.
  destruct (_propagating (sample_media ids)); simpl; by rewrite Hpend.
Qed.

(** Nodes 1 and 2 are neighbours; node 1 has sent, so its own pipe stays
    empty. *)
Lemma half_duplex_exclusion_witness :
  node_pipes (_propagate sample_network (sample_sent [1; 2]) sample_rng).1.1 !! 0%nat
  = Some (1, []).
Proof.
  apply (half_duplex_exclusion sample_network (sample_sent [1; 2]) sample_rng
           0%nat 1 []).
  - reflexivity.
  - rewrite sample_sent_pending by done. simpl. left.
Defined.

(** Node 4 is three cells away from the sender, twice the range. *)
Lemma out_of_range_never_receives_witness :
  node_pipes (_propagate sample_network (sample_sent [1; 4]) sample_rng).1.1 !! 1%nat
  = Some (4, [])
  ∧ ∀ g0, (propagate_receiver (m_config (sample_sent [1; 4])) sample_network
             (_pending (sample_sent [1; 4]))
             (sender_ids_of (_pending (sample_sent [1; 4]))) (4, []) g0).1
          = ((4, []), g0).
Proof.
  apply (out_of_range_never_receives sample_network (sample_sent [1; 4]) sample_rng
           1%nat 4 []).
  - reflexivity.
  - intros tx sender receiver Htx Hsender Hreceiver.
    rewrite sample_sent_pending in Htx by done.
    apply list_elem_of_singleton in Htx as ->.
    assert (Hs : sample_network !! 1 = Some (sample_node 1 0 0 0)) by reflexivity.
    assert (Hr : sample_network !! 4 = Some (sample_node 4 3 0 3)) by reflexivity.
    change (sample_network !! 1 = Some sender) in Hsender.
    rewrite Hs in Hsender. rewrite Hr in Hreceiver.
    injection Hsender as <-. injection Hreceiver as <-.
    by apply distant_out_of_range.
Defined.

Lemma sample_propagate_returns :
  (_propagate sample_network (sample_sent [1; 2]) sample_rng).2 = Ok tt.
Proof.
  apply _propagate_returns.
  - intros tx Htx. rewrite sample_sent_pending in Htx by done.
    apply list_elem_of_singleton in Htx as ->. by eexists.
  - intros pipe [-> | [-> | []%elem_of_nil]%elem_of_cons]%elem_of_cons; by eexists.
Qed.

(** Node 1 sends at time 100 and the batch is resolved. *)
Lemma propagate_resets_batch_witness :
  let r := _propagate sample_network (sample_sent [1; 2]) sample_rng in
  r.2 = Ok tt
  ∧ _pending r.1.1 = [] ∧ _propagating r.1.1 = false
  ∧ _last_tx_time r.1.1 = _last_tx_time (sample_sent [1; 2]).
Proof.
  intros r. split; [exact sample_propagate_returns|].
  apply (propagate_resets_batch sample_network (sample_sent [1; 2]) sample_rng
           r.1.1 r.1.2).
  apply _propagate_ok_eta, sample_propagate_returns.
Defined.

(** C7, the counterexample.  Node 1 sends at time 100, which records
    [1 ↦ 100] in the map of last transmission times; after the resolution of
    that tick the entry is still there. *)
Lemma last_tx_time_survives_propagate :
  let r := _propagate sample_network (sample_sent [1; 2]) sample_rng in
  r.2 = Ok tt
  ∧ _last_tx_time (sample_sent [1; 2]) !! 1 = Some 100
  ∧ ¬ (_pending r.1.1 = [] ∧ _propagating r.1.1 = false
       ∧ _last_tx_time r.1.1 !! 1 = None).
Proof.
  split; [exact sample_propagate_returns|].
  assert (Hrec : _last_tx_time (sample_sent [1; 2]) !! 1 = Some 100) by reflexivity.
  split; [exact Hrec|].
  intros (_ & _ & Hgone).
  destruct (_propagate_ok_state sample_network (sample_sent [1; 2]) sample_rng _ _
              (_propagate_ok_eta _ _ _ sample_propagate_returns))
    as (_ & _ & Hkept).
  rewrite Hkept, Hrec in Hgone. discriminate.
Qed.

(** Node 1 is created and sends a beacon at time 0. *)
Lemma one_transmission_per_sender_and_tick_witness :
  let r := put (sample_beacon "f1") 1 Environment_init (sample_media [1]) in
  let s := (r.1.2, r.1.1) in
  reachable sample_cfg s
  ∧ (∀ id, (pending_of id s.2 ≤ 1)%nat)
  ∧ (∀ f id m1 env1,
       put f id s.1 s.2 = (m1, env1, Ok tt) →
       ∀ s2, rtc tick_step (env1, m1) s2 →
       ∀ f', (put f' id s2.1 s2.2).1 = (s2.2, s2.1)).
Proof.
  intros r s.
  assert (Hrun : reachable sample_cfg s).
  { unfold reachable.
    apply rtc_l with (Environment_init, sample_media [1]);
      [apply (step_connect Environment_init (Media_init sample_cfg) 1)|].
    apply rtc_once.
    apply (step_put Environment_init (sample_media [1]) (sample_beacon "f1") 1
             r.1.1 r.1.2 r.2).
    clear s. subst r.
    by destruct (put (sample_beacon "f1") 1 Environment_init (sample_media [1]))
      as [[m' env'] res]. }
  split; [exact Hrun|].
  exact (one_transmission_per_sender_and_tick sample_cfg s Hrun).
Defined.

(** Two runs that differ in nothing but the value of [uuid4]. *)
Lemma flood_ids_follow_uuid_witness :
  flood_beacon_ids
    (sink_node (trigger_flood sample_sink "0a" (sample_env 100) (sample_media [1])).1.1.1)
  ≠ flood_beacon_ids
    (sink_node (trigger_flood sample_sink "0b" (sample_env 100) (sample_media [1])).1.1.1).
Proof.
  apply (flood_ids_follow_uuid sample_sink (sample_env 100) (sample_media [1])
           "0a" "0b").
  - intros [=].
  - apply not_elem_of_empty.
Defined.

(** Node 1 has just sent and tries to send again within its guard time. *)
Lemma send_while_guarded_is_noop_witness :
  let r := send (sample_node 1 0 0 0) (sample_beacon "f1") (sample_env 100)
             (sample_media [1]) in
  radio_rx_enable r.1.1.1 = false
  ∧ send r.1.1.1 (sample_beacon "f1") r.1.2 r.1.1.2 = (r.1.1.1, r.1.1.2, r.1.2, Ok tt).
Proof.
  intros r.
  assert (Hoff : radio_rx_enable r.1.1.1 = false) by reflexivity.
  split; [exact Hoff|].
  exact (send_while_guarded_is_noop r.1.1.1 (sample_beacon "f1") r.1.2 r.1.1.2 Hoff).
Defined.

(** ** Sample runs for the further properties *)

(** Node 2 is a neighbour of the sender. *)
Lemma propagate_delivers_at_most_one_witness :
  node_pipes (_propagate sample_network (sample_sent [1; 2]) sample_rng).1.1 !! 1%nat
    = Some (2, [])
  ∨ ∃ tx sender receiver,
      tx ∈ _pending (sample_sent [1; 2])
      ∧ (2 ∉ (sender_id <$> _pending (sample_sent [1; 2])))
      ∧ sample_network !! sender_id tx = Some sender
      ∧ sample_network !! 2 = Some receiver
      ∧ _in_range sender receiver = true
      ∧ _on_channel sender receiver = true
      ∧ node_pipes (_propagate sample_network (sample_sent [1; 2]) sample_rng).1.1 !! 1%nat
        = Some (2, [] ++ [frame tx]).
Proof.
  apply (propagate_delivers_at_most_one sample_network (sample_sent [1; 2])
           sample_rng 1%nat 2 []).
  reflexivity.
Defined.

(** Node 2 is a neighbour of the sender but listens on channel 9. *)
Lemma off_channel_never_receives_witness :
  node_pipes (_propagate sample_network_split (sample_sent [1; 2]) sample_rng).1.1 !! 1%nat
  = Some (2, [])
  ∧ ∀ g0, (propagate_receiver (m_config (sample_sent [1; 2])) sample_network_split
             (_pending (sample_sent [1; 2]))
             (sender_ids_of (_pending (sample_sent [1; 2]))) (2, []) g0).1
          = ((2, []), g0).
Proof.
  apply (off_channel_never_receives sample_network_split (sample_sent [1; 2])
           sample_rng 1%nat 2 []).
  - reflexivity.
  - intros tx sender receiver Htx Hsender Hreceiver.
    rewrite sample_sent_pending in Htx by done.
    apply list_elem_of_singleton in Htx as ->.
    assert (Hs : sample_network_split !! 1 = Some (sample_node 1 0 0 0)) by reflexivity.
    assert (Hr : sample_network_split !! 2 = Some (set_channel (sample_node 2 1 0 1) 9))
      by reflexivity.
    change (sample_network_split !! 1 = Some sender) in Hsender.
    rewrite Hs in Hsender. rewrite Hr in Hreceiver.
    injection Hsender as <-. injection Hreceiver as <-.
    simpl. lia.
Defined.

(** Nodes 1, 2 and again 1 send within the tick at time 100. *)
Lemma batch_is_first_send_per_sender_witness :
  _pending (put_all sample_sends (sample_env 100) (sample_media [1; 2])).1
    = [sample_tx "f1" 1; sample_tx "f2" 2]
  ∧ queue (put_all sample_sends (sample_env 100) (sample_media [1; 2])).2
    = [ {| sch_time := 100; sch_seq := 0%nat; sch_event := Propagation |} ].
Proof.
  destruct (batch_is_first_send_per_sender sample_sends (sample_env 100)
              (sample_media [1; 2])) as [Hpending Hqueue].
  - discriminate.
  - reflexivity.
  - reflexivity.
  - intros id. change (_last_tx_time (sample_media [1; 2])) with (∅ : gmap Z Z).
    by rewrite lookup_empty.
  - split; [rewrite Hpending | rewrite Hqueue]; reflexivity.
Defined.

Lemma sample_run_step :
  step (Environment_init, sample_media [1])
       ((put (sample_beacon "f1") 1 Environment_init (sample_media [1])).1.2,
        (put (sample_beacon "f1") 1 Environment_init (sample_media [1])).1.1).
Proof.
  apply (step_put Environment_init (sample_media [1]) (sample_beacon "f1") 1
           _ _ (put (sample_beacon "f1") 1 Environment_init (sample_media [1])).2).
  by destruct (put (sample_beacon "f1") 1 Environment_init (sample_media [1]))
    as [[m' env'] res].
Qed.

Lemma sample_run_reachable :
  reachable sample_cfg
    ((put (sample_beacon "f1") 1 Environment_init (sample_media [1])).1.2,
     (put (sample_beacon "f1") 1 Environment_init (sample_media [1])).1.1).
Proof.
  unfold reachable.
  apply rtc_l with (Environment_init, sample_media [1]);
    [apply (step_connect Environment_init (Media_init sample_cfg) 1)|].
  apply rtc_once, sample_run_step.
Qed.

(** Node 1 is connected and then sends. *)
Lemma pipes_persist_witness :
  let s := (Environment_init, sample_media [1]) in
  let s' := ((put (sample_beacon "f1") 1 Environment_init (sample_media [1])).1.2,
             (put (sample_beacon "f1") 1 Environment_init (sample_media [1])).1.1) in
  (node_pipes s.2).*1 `prefix_of` (node_pipes s'.2).*1
  ∧ (node_pipes s.2 ≠ [] → ∀ f id, (put f id s'.1 s'.2).2 = Ok tt).
Proof.
  intros s s'. apply (pipes_persist s s'). apply rtc_once, sample_run_step.
Defined.

(** After the send of node 1 the batch is not empty. *)
Lemma pending_batch_is_scheduled_witness :
  let s := ((put (sample_beacon "f1") 1 Environment_init (sample_media [1])).1.2,
            (put (sample_beacon "f1") 1 Environment_init (sample_media [1])).1.1) in
  ∃ e, e ∈ queue s.1 ∧ sch_time e = now s.1 ∧ sch_event e = Propagation.
Proof.
  intros s. apply (pending_batch_is_scheduled sample_cfg s).
  - exact sample_run_reachable.
  - discriminate.
Defined.

(** Node 1 sends twice in the tick at time 100: the second attempt is
    counted although the medium does not buffer it. *)
Lemma send_counts_every_attempt_witness :
  let self := reenable_rx (send (sample_node 1 0 0 0) (sample_beacon "f1")
                             (sample_env 100) (sample_media [1])).1.1.1 in
  let m := sample_sent [1] in
  local_tx_count (send self (sample_beacon "f2") (sample_env 100) m).1.1.1
    = local_tx_count self + 1
  ∧ radio_rx_enable (send self (sample_beacon "f2") (sample_env 100) m).1.1.1 = false
  ∧ flood_beacon_ids (send self (sample_beacon "f2") (sample_env 100) m).1.1.1
    = flood_beacon_ids self
  ∧ flood_beacon_times (send self (sample_beacon "f2") (sample_env 100) m).1.1.1
    = flood_beacon_times self
  ∧ n_config (send self (sample_beacon "f2") (sample_env 100) m).1.1.1 = n_config self
  ∧ (send self (sample_beacon "f2") (sample_env 100) m).1.1.2
    = (put (sample_beacon "f2") (node_id (n_config self)) (sample_env 100) m).1.1
  ∧ (send self (sample_beacon "f2") (sample_env 100) m).2
    = (put (sample_beacon "f2") (node_id (n_config self)) (sample_env 100) m).2.
Proof.
  intros self m.
  apply (send_counts_every_attempt self (sample_beacon "f2") (sample_env 100) m).
  reflexivity.
Defined.

(** Node 1 is built on a new medium, node 2 after it; node 1 hears a
    beacon and relays it. *)
Lemma send_on_own_medium_returns_witness :
  let config := sample_node_config 1 0 0 0 in
  let m0 := Media_init sample_cfg in
  let env := sample_env 100 in
  let m := get_output_conn (Node_init config m0).2 2 in
  let self := (receive_turn (Node_init config m0).1 (sample_beacon "f1") env).1 in
  let r := send self (sample_beacon "f1") env m in
  1 = node_id config
  ∧ 1 ∈ (node_pipes m).*1
  ∧ r.2 = Ok tt
  ∧ radio_rx_enable r.1.1.1 = false
  ∧ r.1.2 = process (put (sample_beacon "f1") 1 env m).1.2 (ReenableRx 1)
  ∧ last (queue r.1.2)
    = Some {| sch_time := 100; sch_seq := eid (put (sample_beacon "f1") 1 env m).1.2;
              sch_event := Initialize (ReenableRx 1) |}.
Proof.
  intros config m0 env m self r.
  apply (send_on_own_medium_returns config m0 env env m self (sample_beacon "f1")).
  - apply rtc_once, step_connect.
  - apply rtc_once, op_receive_turn.
  - reflexivity.
Defined.

Lemma sample_node_bookkeeping id x y hop : bookkeeping_ok (sample_node id x y hop).
Proof.
  intros flood_id. simpl. rewrite lookup_empty. split.
  - by intros ?%not_elem_of_empty.
  - by intros (? & ? & _).
Qed.

(** A new node and a new sink. *)
Lemma bookkeeping_stays_consistent_witness :
  let self := sample_node 2 1 0 1 in
  let f := sample_beacon "f1" in
  let env := sample_env 100 in
  let m := sample_media [1; 2] in
  bookkeeping_ok (Node_init (sample_node_config 3 (-1) 0 1) m).1
  ∧ bookkeeping_ok (receive self f env).1
  ∧ bookkeeping_ok (send self f env m).1.1.1
  ∧ bookkeeping_ok (reenable_rx self)
  ∧ bookkeeping_ok (set_channel self 9)
  ∧ bookkeeping_ok (sink_node (trigger_flood sample_sink "0a" env m).1.1.1).
Proof.
  intros self f env m.
  apply (bookkeeping_stays_consistent self f env m "0a" 9
           (sample_node_config 3 (-1) 0 1) m sample_sink);
    apply sample_node_bookkeeping.
Defined.

(** Node 1 sends; a broadcast arrives within the guard time and after it. *)
Lemma guard_time_blocks_reception_witness :
  let self := sample_node 1 0 0 0 in
  let sent := (send self (sample_beacon "f1") (sample_env 100) (sample_media [1])).1.1.1 in
  receive sent (sample_beacon "f2") (sample_env 150) = (sent, None)
  ∧ (DST (sample_beacon "f2") = 0 →
     (receive (reenable_rx sent) (sample_beacon "f2") (sample_env 200)).2
     = Some (sample_beacon "f2")).
Proof.
  intros self sent.
  destruct (guard_time_blocks_reception self (sample_beacon "f1") (sample_env 100)
              (sample_media [1]) (sample_beacon "f2") (sample_env 150)) as [Hdrop _];
    [reflexivity|].
  destruct (guard_time_blocks_reception self (sample_beacon "f1") (sample_env 100)
              (sample_media [1]) (sample_beacon "f2") (sample_env 200)) as [_ Hadmit];
    [reflexivity|].
  split; [exact Hdrop | exact Hadmit].
Defined.

(** The sink's own beacon comes back from a neighbour after the guard
    time, and again after the sink has relayed another flood. *)
Lemma sink_does_not_relay_own_flood_witness :
  let sink' :=
    sink_node (trigger_flood sample_sink "0a" (sample_env 100) (sample_media [1])).1.1.1 in
  let later :=
    (send (receive_turn (reenable_rx sink') (sample_beacon "0b") (sample_env 300)).1
          (sample_beacon "0b") (sample_env 300) (sample_media [1])).1.1.1 in
  radio_rx_enable sink' = false
  ∧ (receive (reenable_rx sink') (sample_beacon "0a") (sample_env 300)).2
    = Some (sample_beacon "0a")
  ∧ (receive_turn (reenable_rx sink') (sample_beacon "0a") (sample_env 300)).2
    = sample_env 300
  ∧ (receive_turn (reenable_rx later) (sample_beacon "0a") (sample_env 500)).2
    = sample_env 500.
Proof.
  intros sink' later.
  destruct (sink_does_not_relay_own_flood sample_sink "0a" (sample_env 100)
              (sample_media [1]) (sample_beacon "0a") (sample_env 300))
    as (Hlocked & Hadmit & Hturn & _); [reflexivity|].
  destruct (sink_does_not_relay_own_flood sample_sink "0a" (sample_env 100)
              (sample_media [1]) (sample_beacon "0a") (sample_env 500))
    as (_ & _ & _ & Hlater); [reflexivity|].
  split_and!.
  - exact Hlocked.
  - by apply Hadmit.
  - exact Hturn.
  - apply Hlater. fold sink'.
    eapply rtc_l; [apply op_reenable_rx|].
    eapply rtc_l; [apply (op_receive_turn _ (sample_beacon "0b") (sample_env 300))|].
    eapply rtc_l; [apply (op_send _ (sample_beacon "0b") (sample_env 300)
                            (sample_media [1]))|].
    fold later. apply rtc_once, op_reenable_rx.
Defined.

(** The sink triggers its flood at time 100. *)
Lemma trigger_flood_sends_beacon_witness :
  let beacon := {| TYPE := "FLOOD_BEACON"; SRC := 1; DST := 0; SEQ := 0;
                   PAYLOAD := FloodBeaconMessage "0a" |} in
  let r := trigger_flood sample_sink "0a" (sample_env 100) (sample_media [1]) in
  r.2 = Ok tt
  ∧ msg_seq r.1.1.1 = 0
  ∧ _pending r.1.1.2 = [] ++ [ {| frame := beacon; sender_id := 1 |} ]
  ∧ local_tx_count (sink_node r.1.1.1) = 1
  ∧ radio_rx_enable (sink_node r.1.1.1) = false
  ∧ r.1.2 = process (process (schedule (sample_env 100) Propagation 0) (ReenableRx 1))
                    (FloodProcess 1 beacon)
  ∧ ∀ other env', radio_rx_enable other = true →
      (receive other beacon env').2 = Some beacon
      ∧ "0a" ∈ flood_beacon_ids (receive other beacon env').1.
Proof.
  apply (trigger_flood_sends_beacon sample_sink "0a" (sample_env 100) (sample_media [1])).
  - reflexivity.
  - discriminate.
  - change (_last_tx_time (sample_media [1])) with (∅ : gmap Z Z).
    by rewrite lookup_empty.
Defined.

(** The sink triggers a second flood within its guard time. *)
Lemma trigger_flood_while_guarded_witness :
  let sink := (trigger_flood sample_sink "0a" (sample_env 100) (sample_media [1])).1.1.1 in
  let beacon := {| TYPE := "FLOOD_BEACON"; SRC := 1; DST := 0; SEQ := 1;
                   PAYLOAD := FloodBeaconMessage "0b" |} in
  let r := trigger_flood sink "0b" (sample_env 150) (sample_media [1]) in
  r.2 = Ok tt
  ∧ r.1.1.2 = sample_media [1]
  ∧ r.1.2 = process (sample_env 150) (FloodProcess 1 beacon)
  ∧ msg_seq r.1.1.1 = 1
  ∧ "0b" ∈ flood_beacon_ids (sink_node r.1.1.1)
  ∧ local_tx_count (sink_node r.1.1.1) = 1
  ∧ radio_rx_enable (sink_node r.1.1.1) = false.
Proof.
  intros sink.
  apply (trigger_flood_while_guarded sink "0b" (sample_env 150) (sample_media [1])).
  reflexivity.
Defined.

Lemma sample_registry_consistent : manager.consistent sample_obj_id sample_registry.
Proof.
  unfold sample_registry. do 2 apply consistent_add_node. apply consistent_init.
Qed.

(** A third node is added to the registry of nodes 1 and 2, and node 1 is
    removed from it. *)
Lemma registry_stays_consistent_witness :
  manager.consistent sample_obj_id (manager.init (Obj := Z * nat))
  ∧ manager.consistent sample_obj_id
      (manager.add_node sample_obj_id sample_registry (3, 2%nat)).1
  ∧ manager.consistent sample_obj_id
      (manager.remove_node sample_obj_id sample_registry (1, 0%nat)).1.
Proof.
  destruct (registry_stays_consistent sample_obj_id sample_registry (3, 2%nat)
              sample_registry_consistent) as (Hinit & Hadd & _).
  destruct (registry_stays_consistent sample_obj_id sample_registry (1, 0%nat)
              sample_registry_consistent) as (_ & _ & Hremove).
  split; [exact Hinit|]. split; [exact Hadd | exact Hremove].
Defined.

(** Node 3 is added and removed again. *)
Lemma add_then_remove_node_witness :
  manager.remove_node sample_obj_id
    (manager.add_node sample_obj_id sample_registry (3, 2%nat)).1 (3, 2%nat)
  = (sample_registry, Ok tt).
Proof.
  apply (add_then_remove_node sample_obj_id sample_registry (3, 2%nat)).
  - exact sample_registry_consistent.
  - reflexivity.
Defined.

(** Another object with the id of node 1 is not the listed node. *)
Lemma remove_node_needs_listed_node_witness :
  (is_raise (manager.remove_node sample_obj_id sample_registry (1, 7%nat)).2 = true
   ↔ (1, 7%nat) ∉ manager.nodes sample_registry)
  ∧ (is_raise (manager.remove_node sample_obj_id sample_registry (1, 7%nat)).2 = true →
     (manager.remove_node sample_obj_id sample_registry (1, 7%nat)).1 = sample_registry)
  ∧ (is_raise (manager.remove_node sample_obj_id sample_registry (1, 7%nat)).2 = false →
     is_raise (manager.get_node
                 (manager.remove_node sample_obj_id sample_registry (1, 7%nat)).1
                 (sample_obj_id (1, 7%nat))) = true
     ∧ S (manager.node_count
            (manager.remove_node sample_obj_id sample_registry (1, 7%nat)).1)
       = manager.node_count sample_registry
     ∧ ∀ id, id ≠ sample_obj_id (1, 7%nat) →
         manager.get_node
           (manager.remove_node sample_obj_id sample_registry (1, 7%nat)).1 id
         = manager.get_node sample_registry id).
Proof.
  apply (remove_node_needs_listed_node sample_obj_id sample_registry (1, 7%nat)).
  exact sample_registry_consistent.
Defined.

(** ** The grid of nine nodes *)

Lemma sample_grid_order :
  layered_cells (grid_cells 1) (py_range 0 (1 + 1))
  = [ (0, (0, 0)); (1, (-1, -1)); (1, (-1, 0)); (1, (-1, 1)); (1, (0, -1));
      (1, (0, 1)); (1, (1, -1)); (1, (1, 0)); (1, (1, 1)) ].
Proof. vm_compute. reflexivity. Qed.

Lemma sample_grid_nodes :
  manager.nodes (b_network sample_grid.1)
  = grid_devices sample_txdistance 1 100 false 1
      [ (0, (0, 0)); (1, (-1, -1)); (1, (-1, 0)); (1, (-1, 1)); (1, (0, -1));
        (1, (0, 1)); (1, (1, -1)); (1, (1, 0)); (1, (1, 1)) ].
Proof.
  unfold sample_grid. rewrite add_nodes_nodes. by rewrite sample_grid_order.
Qed.

Lemma sample_grid_sink_elem :
  sample_grid_sink ∈ manager.nodes (b_network sample_grid.1).
Proof. rewrite sample_grid_nodes. left. Qed.

Lemma sample_grid_sensor_elem :
  sample_grid_sensor ∈ manager.nodes (b_network sample_grid.1).
Proof. rewrite sample_grid_nodes. simpl. do 7 right. left. Qed.

Lemma grid_is_covered_witness :
  let nodes := manager.nodes (b_network sample_grid.1) in
  let positions := (λ d, node_pos (n_config (device_node d))) <$> nodes in
  Z.of_nat (length nodes) = (2 * 1 + 1) * (2 * 1 + 1)
  ∧ positions ≡ₚ grid_cells 1
  ∧ NoDup positions
  ∧ ∀ x y, (- 1 ≤ x ≤ 1) → (- 1 ≤ y ≤ 1) → (x, y) ∈ positions.
Proof.
  apply (grid_is_covered sample_txdistance (Media_init sample_cfg) 1 1 100 false). lia.
Defined.

Lemma grid_node_is_configured_witness :
  let cfg := n_config (device_node sample_grid_sensor) in
  node_hop cfg = cell_hop (node_pos cfg)
  ∧ 0 ≤ node_hop cfg ≤ 1
  ∧ max_transmissions cfg = 1
  ∧ guard_time cfg = 100
  ∧ radio_channel cfg = 7
  ∧ radio_txdistance cfg = sample_txdistance
  ∧ radio_rx_enable (device_node sample_grid_sensor) = true
  ∧ local_tx_count (device_node sample_grid_sensor) = 0
  ∧ flood_beacon_ids (device_node sample_grid_sensor) = ∅
  ∧ ((∃ s, sample_grid_sensor = SinkDevice s ∧ msg_seq s = -1) ↔ node_pos cfg = (0, 0))
  ∧ ((∃ n, sample_grid_sensor = SensorDevice n) ↔ node_pos cfg ≠ (0, 0)).
Proof.
  apply (grid_node_is_configured sample_txdistance (Media_init sample_cfg) 1 1 100 false
           sample_grid_sensor).
  exact sample_grid_sensor_elem.
Defined.

Lemma sink_is_node_one_witness :
  let nodes := manager.nodes (b_network sample_grid.1) in
  (∃ s, nodes !! 0%nat = Some (SinkDevice s)
        ∧ node_id (n_config (sink_node s)) = 1
        ∧ node_pos (n_config (sink_node s)) = (0, 0)
        ∧ node_hop (n_config (sink_node s)) = 0
        ∧ msg_seq s = -1)
  ∧ ∀ (i : nat) s, nodes !! i = Some (SinkDevice s) → i = 0%nat.
Proof.
  apply (sink_is_node_one sample_txdistance (Media_init sample_cfg) 1 1 100 false). lia.
Defined.

Lemma ids_grow_with_hop_witness :
  device_id sample_grid_sink < device_id sample_grid_sensor.
Proof.
  apply (ids_grow_with_hop sample_txdistance (Media_init sample_cfg) 1 1 100 false
           sample_grid_sink sample_grid_sensor).
  - exact sample_grid_sink_elem.
  - exact sample_grid_sensor_elem.
  - simpl. lia.
Defined.

Lemma sample_grid_pending :
  _pending (put (sample_beacon "f1") 1 (sample_env 100) (b_media sample_grid.1)).1.1
  = [sample_tx "f1" 1].
Proof. reflexivity. Qed.

Lemma sample_grid_sink_registered :
  manager._node_by_id (b_network sample_grid.1) !! 1 = Some sample_grid_sink.
Proof. reflexivity. Qed.

(** The sink of the nine-node grid sends at time 100. *)
Lemma grid_resolution_never_raises_witness :
  let b := sample_grid.1 in
  let network := device_node <$> manager._node_by_id (b_network b) in
  let m := (put (sample_beacon "f1") 1 (sample_env 100) (b_media b)).1.1 in
  (_propagate network m sample_rng).2 = Ok tt.
Proof.
  intros b network m.
  apply (grid_resolution_never_raises sample_txdistance sample_cfg 1 1 100 false
           m sample_rng).
  - subst m. by rewrite put_node_pipes.
  - intros tx Htx. subst m b. rewrite sample_grid_pending in Htx.
    apply list_elem_of_singleton in Htx as ->.
    exists sample_grid_sink. exact sample_grid_sink_registered.
Defined.

End Runs.
